(** * AI Study Buddy: the response parsers of [app.py]

    A shallow embedding of the helper functions of [app.py]
    ([generate_with_gemini], [generate_summary], [generate_flashcards],
    [generate_quiz], [generate_answer]) together with the fragment of
    Python's [re] module that the two extraction patterns use, and the
    properties of the specification proved about them.

    Python strings are sequences of Unicode code points; they are modelled
    as lists of code points ([N]).  The regular expressions are modelled by
    a backtracking matcher that tries alternatives in the order of
    Python's engine (greedy repetition longest first, lazy repetition
    shortest first, alternation left to right), so that the groups it
    captures are those [re.findall] returns. *)

From Stdlib Require Import NArith List Bool Lia String Ascii DecimalString.
From stdpp Require Import base option list gmap.

Local Open Scope N_scope.
Local Open Scope list_scope.

(** ** Strings *)

Module PyStr.

Definition char := N.
Definition str := list char.

Definition NL : char := 10.

(** [u s]: the Python string with the characters of [s], taken as they are. *)
Definition u (s : string) : str := map N_of_ascii (list_ascii_of_string s).

(** [py s]: the Python string denoted by the (non-raw) literal ["s"]; the
    only escape sequence the literals of [app.py] use is backslash-n. *)
Fixpoint unescape (l : list char) : str :=
  match l with
  | 92 :: 110 :: l' => NL :: unescape l'
  | c :: l' => c :: unescape l'
  | [] => []
  end.

Definition py (s : string) : str := unescape (u s).

(** [str.isspace] on one character: the white space of [str.strip()] and of
    the pattern class [\s] on [str] patterns (both are CPython's
    [Py_UNICODE_ISSPACE]). *)
Definition is_space (c : char) : bool :=
  ((9 <=? c) && (c <=? 13)) || ((28 <=? c) && (c <=? 32))
  || (c =? 133) || (c =? 160) || (c =? 5760)
  || ((8192 <=? c) && (c <=? 8202))
  || (c =? 8232) || (c =? 8233) || (c =? 8239) || (c =? 8287) || (c =? 12288).

Fixpoint lstrip (s : str) : str :=
  match s with
  | c :: s' => if is_space c then lstrip s' else s
  | [] => []
  end.

Definition rstrip (s : str) : str := rev (lstrip (rev s)).

(** [s.strip()] *)
Definition strip (s : str) : str := rstrip (lstrip s).

(** [s.startswith(p)] *)
Fixpoint startswith (s p : str) {struct p} : bool :=
  match p, s with
  | [], _ => true
  | c :: p', d :: s' => (c =? d) && startswith s' p'
  | _ :: _, [] => false
  end.

(** Truth value of a string: [not s] holds of the empty string only. *)
Definition truthy (s : str) : bool :=
  match s with [] => false | _ :: _ => true end.

(** [blank s]: [s] has no character other than white space, so that
    [s.strip()] is empty. *)
Definition blank (s : str) : bool := forallb is_space s.

(** [sep.join(l)] *)
Fixpoint join (sep : str) (l : list str) : str :=
  match l with
  | [] => []
  | [x] => x
  | x :: l' => x ++ sep ++ join sep l'
  end.

(** Lower and upper case of the ASCII letters.  [str.upper()] is applied by
    [generate_quiz] to the text of a group that matched [[A-D]] only, which
    is an ASCII letter (lemma [range_AD_chars] below); on other code points
    [upper] is the identity. *)
Definition ascii_lower (c : char) : char :=
  if (65 <=? c) && (c <=? 90) then c + 32 else c.

Definition ascii_upper (c : char) : char :=
  if (97 <=? c) && (c <=? 122) then c - 32 else c.

Definition upper (s : str) : str := map ascii_upper s.

End PyStr.
Export PyStr.

(** ** The fragment of [re] used by [app.py] *)

Module Re.

Record flags := { IGNORECASE : bool; DOTALL : bool }.

(** One-character items. *)
Inductive cls :=
| CLit (c : char)          (* a literal character *)
| CAny                     (* [.] *)
| CSpace                   (* [\s] *)
| CRange (lo : char) (n : nat).   (* [[lo-hi]], the [n] characters from [lo] on *)

Inductive regex :=
| Eps
| Chr (c : cls)
| Seq (r1 r2 : regex)
| Alt (r1 r2 : regex)      (* [r1|r2] *)
| StarG (c : cls)          (* [c*], greedy *)
| StarL (c : cls)          (* [c*?], lazy *)
| Group (n : nat) (r : regex)   (* the [n]-th capturing group *)
| Look (r : regex)         (* [(?=r)] *)
| EndZ.                    (* [\Z] *)

(** Simple lower case of a code point as far as it can reach an ASCII
    letter: besides [A-Z], U+0130 lowers to [i] and U+212A to [k]. *)
Definition sre_lower (x : char) : char :=
  if (65 <=? x) && (x <=? 90) then x + 32
  else if x =? 304 then 105
  else if x =? 8490 then 107
  else x.

(** The extra characters [sre_compile] adds to an ignore-case literal
    ([_ignorecase_fixes]): dotless i for [i], long s for [s]. *)
Definition ignorecase_fixes (lo : char) : list char :=
  if lo =? 105 then [305] else if lo =? 115 then [383] else [].

(** Does the literal [c] of a pattern match the character [x]?  Exact for
    ASCII [c], which is all that the patterns of [app.py] contain. *)
Definition lit_match (f : flags) (c x : char) : bool :=
  if IGNORECASE f
  then (sre_lower x =? ascii_lower c)
       || existsb (N.eqb x) (ignorecase_fixes (ascii_lower c))
  else x =? c.

Fixpoint range_chars (lo : char) (n : nat) : list char :=
  match n with
  | O => []
  | S n' => lo :: range_chars (lo + 1) n'
  end.

Definition cls_match (f : flags) (c : cls) (x : char) : bool :=
  match c with
  | CLit l => lit_match f l x
  | CAny => DOTALL f || negb (x =? NL)
  | CSpace => is_space x
  | CRange lo n => existsb (fun l => lit_match f l x) (range_chars lo n)
  end.

(** [prefix_ci f p s]: the literal text [p], as a pattern under the flags
    [f], matches at the front of [s]. *)
Fixpoint prefix_ci (f : flags) (p s : str) {struct p} : bool :=
  match p, s with
  | [], _ => true
  | c :: p', x :: s' => lit_match f c x && prefix_ci f p' s'
  | _ :: _, [] => false
  end.

(** [occurs f p s]: the literal text [p] matches somewhere in [s]. *)
Fixpoint occurs (f : flags) (p s : str) : bool :=
  prefix_ci f p s
  || match s with
     | [] => false
     | _ :: s' => occurs f p s'
     end.

(** Captured groups: the most recent binding of a group number comes first. *)
Definition caps := list (nat * str).

Fixpoint group (n : nat) (g : caps) : str :=
  match g with
  | (m, s) :: g' => if Nat.eqb n m then s else group n g'
  | [] => []
  end.

Section Matcher.
Variable f : flags.

Section Repeat.
Context {A : Type}.

  (** [c*] followed by [k]: take as many characters as possible, give back
      one at a time while [k] fails. *)
Fixpoint greedy (c : cls) (s : str) (k : str -> option A) : option A :=
    match s with
    | x :: s' =>
        if cls_match f c x
        then match greedy c s' k with
             | Some r => Some r
             | None => k s
             end
        else k s
    | [] => k []
    end.

  (** [c*?] followed by [k]: take as few characters as possible, one more
      each time [k] fails. *)
Fixpoint lazy (c : cls) (s : str) (k : str -> option A) : option A :=
    match k s with
    | Some r => Some r
    | None =>
        match s with
        | x :: s' => if cls_match f c x then lazy c s' k else None
        | [] => None
        end
    end.

End Repeat.

  (** [rmatch r s g k]: match [r] at the front of [s] with the groups [g]
      captured so far, then continue with [k] on what is left; the first
      way of matching [r] on which [k] succeeds is the result. *)
Fixpoint rmatch {A : Type} (r : regex) (s : str) (g : caps)
      (k : str -> caps -> option A) : option A :=
    match r with
    | Eps => k s g
    | Chr c =>
        match s with
        | x :: s' => if cls_match f c x then k s' g else None
        | [] => None
        end
    | Seq r1 r2 => rmatch r1 s g (fun s' g' => rmatch r2 s' g' k)
    | Alt r1 r2 =>
        match rmatch r1 s g k with
        | Some x => Some x
        | None => rmatch r2 s g k
        end
    | StarG c => greedy c s (fun s' => k s' g)
    | StarL c => lazy c s (fun s' => k s' g)
    | Group n r1 =>
        rmatch r1 s g
          (fun s' g' => k s' ((n, take (length s - length s') s) :: g'))
    | Look r1 =>
        match rmatch r1 s g (fun _ g' => Some g') with
        | Some g' => k s g'
        | None => None
        end
    | EndZ => match s with [] => k [] g | _ :: _ => None end
    end.
End Matcher.

(** A match of [r] that starts at the front of [s]: what is left of [s]
    after the match, and the groups. *)
Definition match_here (f : flags) (r : regex) (s : str) : option (str * caps) :=
  rmatch f r s [] (fun s' g => Some (s', g)).

(** [scan f r s skip]: the matches of [r] in [s], leftmost first and not
    overlapping.  [skip] counts the characters at the front of [s] that the
    previous match still covers.  A match that consumed nothing lets the
    search go on one character further. *)
Fixpoint scan (f : flags) (r : regex) (s : str) (skip : nat) : list caps :=
  match skip with
  | S n => match s with _ :: s' => scan f r s' n | [] => [] end
  | O =>
      match match_here f r s with
      | Some (rest, g) =>
          g :: match s with
               | _ :: s' => scan f r s' (length s - length rest - 1)
               | [] => []
               end
      | None => match s with _ :: s' => scan f r s' O | [] => [] end
      end
  end.

(** [re.compile(r, flags).findall(s)], as the list of the groups of each
    match. *)
Definition findall (f : flags) (r : regex) (s : str) : list caps := scan f r s O.

(** A pattern that is a sequence of literal characters. *)
Definition lits (s : str) : regex := foldr (fun c r => Seq (Chr (CLit c)) r) Eps s.

(** Concatenation of several patterns. *)
Definition cat (rs : list regex) : regex := foldr Seq Eps rs.

End Re.
Export Re.

(** ** The generation gateway *)

Module Gateway.

(** An exception that [except Exception] catches, by what [str(e)] is. *)
Record Exception := { exc_str : str }.

(** A computation of the body of a [try] block: it raises or returns. *)
Inductive Exc (A : Type) :=
| Raise (e : Exception)
| Return (a : A).
Arguments Raise {A} e.
Arguments Return {A} a.

Definition bind {A B : Type} (m : Exc A) (k : A -> Exc B) : Exc B :=
  match m with
  | Raise e => Raise e
  | Return a => k a
  end.

Notation "'do' x <- m ; k" := (bind m (fun x => k))
  (at level 10, x name, m at level 100, k at level 200).

(** The response object of the client library, by what
    [generate_with_gemini] reads of it.  A block reason and a finish reason
    are members of an enumeration: the code reads their [name].
    [prompt_feedback] and [block_reason] are [None] where Python finds them
    false. *)
Record BlockReason := { block_reason_name : str }.

Record FinishReason := { finish_reason_name : str }.

(** [r != s] for a member [r] of an enumeration and a string [s]: a member
    of an enumeration is not a string, and the two are never equal. *)
Definition enum_ne_str (r : FinishReason) (s : str) : bool := true.

Record PromptFeedback := { block_reason : option BlockReason }.

Record Candidate := {
  finish_reason : FinishReason;
  content_parts : list str      (* [candidate.content.parts] *)
}.

Record Response := {
  prompt_feedback : option PromptFeedback;
  candidates : list Candidate;
  accessor_error : Exception;   (* what [response.parts] raises when the
                                   response does not hold one candidate *)
  text : Exc str                (* reading [response.text] *)
}.

(** [response.parts], the quick accessor of the client library: the parts
    of the only candidate.  It raises when the response holds no candidate,
    as for a blocked prompt, or more than one. *)
Definition parts (response : Response) : Exc (list str) :=
  match candidates response with
  | [c] => Return (content_parts c)
  | _ => Raise (accessor_error response)
  end.

(** The safety settings passed with every call: category and threshold. *)
Definition safety_settings : list (str * str) :=
  [ (u "HARM_CATEGORY_HARASSMENT", u "BLOCK_MEDIUM_AND_ABOVE");
    (u "HARM_CATEGORY_HATE_SPEECH", u "BLOCK_MEDIUM_AND_ABOVE");
    (u "HARM_CATEGORY_SEXUALLY_EXPLICIT", u "BLOCK_MEDIUM_AND_ABOVE");
    (u "HARM_CATEGORY_DANGEROUS_CONTENT", u "BLOCK_MEDIUM_AND_ABOVE") ].

(** The remote service, [model.generate_content]: its reply to a prompt
    and safety settings, given the prompts it was sent before. *)
Definition Service := list str -> str -> list (str * str) -> Exc Response.

(** The state threaded through the helpers: the prompts sent so far. *)
Definition World := list str.

Definition blocked_message (b : BlockReason) : str :=
  py "Content generation blocked. Reason: " ++ block_reason_name b.

Definition stopped_message (r : FinishReason) : str :=
  py "Content generation stopped. Reason: " ++ finish_reason_name r.

Definition empty_message : str :=
  py "Error: Received an empty response from the API.".

Definition error_message (e : Exception) : str :=
  py "An error occurred during generation: " ++ exc_str e.

(** [response.prompt_feedback and response.prompt_feedback.block_reason] *)
Definition block_reason_of (response : Response) : option BlockReason :=
  match prompt_feedback response with
  | Some fb => block_reason fb
  | None => None
  end.

(** The [try] block of [generate_with_gemini], after the call has returned
    or raised. *)
Definition classify (reply : Exc Response) : Exc str :=
  do response <- reply;
  do response_parts <- parts response;
  match response_parts with
  | [] =>
      match block_reason_of response with
      | Some b => Return (blocked_message b)
      | None =>
          match candidates response with
          | c :: _ =>
              if enum_ne_str (finish_reason c) (py "STOP")
              then Return (stopped_message (finish_reason c))
              else Return empty_message
          | [] => Return empty_message
          end
      end
  | _ :: _ => text response
  end.

Definition generate_with_gemini (model : Service) (prompt : str) (w : World)
  : str * World :=
  (match classify (model w prompt safety_settings) with
   | Return s => s
   | Raise e => error_message e
   end,
   w ++ [prompt]).

End Gateway.
Export Gateway.

(** ** The helpers of [app.py] *)

Definition pattern_flags : flags := {| IGNORECASE := true; DOTALL := true |}.

(** [Question:\s*(.*?)\nAnswer:\s*(.*?)(?=\n\nQuestion:|\Z)] *)
Definition flashcard_pattern : regex :=
  cat [ lits (u "Question:"); StarG CSpace; Group 1 (StarL CAny);
        lits (NL :: u "Answer:"); StarG CSpace; Group 2 (StarL CAny);
        Look (Alt (lits (NL :: NL :: u "Question:")) EndZ) ].

(** [Question:\s*(.*?)\nA\)\s*(.*?)\nB\)\s*(.*?)\nC\)\s*(.*?)\nD\)\s*(.*?)\nAnswer:\s*([A-D])] *)
Definition quiz_pattern : regex :=
  cat [ lits (u "Question:"); StarG CSpace; Group 1 (StarL CAny);
        lits (NL :: u "A)"); StarG CSpace; Group 2 (StarL CAny);
        lits (NL :: u "B)"); StarG CSpace; Group 3 (StarL CAny);
        lits (NL :: u "C)"); StarG CSpace; Group 4 (StarL CAny);
        lits (NL :: u "D)"); StarG CSpace; Group 5 (StarL CAny);
        lits (NL :: u "Answer:"); StarG CSpace; Group 6 (Chr (CRange 65 4)) ].

Record QuizItem := {
  question : str;
  options : gmap str str;
  answer : str
}.

(** A helper returns a message or a list. *)
Inductive Result (T : Type) :=
| Message (s : str)
| Items (l : list T).
Arguments Message {T} s.
Arguments Items {T} l.

Definition is_failure (s : str) : bool :=
  startswith s (py "An error occurred") || startswith s (py "Content generation")
  || startswith s (py "Error:").

Definition summary_prompt (text : str) : str :=
  py "Please provide a concise summary of the following text, highlighting the key points and concepts suitable for studying:\n\n---\n"
  ++ text ++ py "\n---".

Definition flashcards_prompt (text : str) : str :=
  py "Generate flashcards based on the key information in the following text. Format each flashcard strictly as:\nQuestion: [Your Question Here]\nAnswer: [Your Answer Here]\n\nEnsure there is a blank line between each flashcard.\n\n---\n"
  ++ text ++ py "\n---".

Definition quiz_prompt (text : str) : str :=
  py "Generate a multiple-choice quiz (around 3-5 questions) based on the key information in the following text. For each question, provide 4 options (A, B, C, D) and indicate the correct answer. Format each question strictly as:\nQuestion: [Your Question Here]\nA) [Option A]\nB) [Option B]\nC) [Option C]\nD) [Option D]\nAnswer: [Correct Option Letter]\n\nEnsure there is a blank line between each question block.\n\n---\n"
  ++ text ++ py "\n---".

Definition answer_prompt (context question : str) : str :=
  py "Based *only* on the following text, answer the question provided. If the answer cannot be found in the text, say 'The answer is not found in the provided text.'\n\nContext Text:\n---\n"
  ++ context ++ py "\n---\n\nQuestion: " ++ question.

Definition generate_summary (model : Service) (text : str) (w : World)
  : str * World :=
  if negb (truthy text) then (py "Please provide some text to summarize.", w)
  else generate_with_gemini model (summary_prompt text) w.

(** The parsing step of [generate_flashcards]: from the compilation of the
    pattern to the end of the function. *)
Definition flashcard_matches (flashcards_text : str) : list caps :=
  findall pattern_flags flashcard_pattern flashcards_text.

Definition extractFlashcards (flashcards_text : str) : Result (str * str) :=
  let matches := flashcard_matches flashcards_text in
  let flashcards := map (fun m => (strip (group 1 m), strip (group 2 m))) matches in
  match flashcards with
  | [] =>
      if truthy (strip flashcards_text)
      then Message (py "Could not parse flashcards from the response. Raw response:\n"
                    ++ flashcards_text)
      else Message (py "The model did not generate any flashcards or the response was empty.")
  | _ :: _ => Items flashcards
  end.

Definition generate_flashcards (model : Service) (text : str) (w : World)
  : Result (str * str) * World :=
  if negb (truthy text)
  then (Message (py "Please provide some text to generate flashcards from."), w)
  else
    let '(flashcards_text, w') := generate_with_gemini model (flashcards_prompt text) w in
    if is_failure flashcards_text then (Message flashcards_text, w')
    else (extractFlashcards flashcards_text, w').

(** The parsing step of [generate_quiz]. *)
Definition quiz_matches (quiz_text : str) : list caps :=
  findall pattern_flags quiz_pattern quiz_text.

Definition quiz_item (m : caps) : QuizItem :=
  let question := strip (group 1 m) in
  let opt_a := strip (group 2 m) in
  let opt_b := strip (group 3 m) in
  let opt_c := strip (group 4 m) in
  let opt_d := strip (group 5 m) in
  let answer := strip (group 6 m) in
  {| question := question;
     options := <[u "D" := opt_d]> (<[u "C" := opt_c]> (<[u "B" := opt_b]>
                  (<[u "A" := opt_a]> ∅)));
     answer := upper answer |}.

Definition extractQuiz (quiz_text : str) : Result QuizItem :=
  let matches := quiz_matches quiz_text in
  let quiz_items := map quiz_item matches in
  match quiz_items with
  | [] =>
      if truthy (strip quiz_text)
      then Message (py "Could not parse quiz questions from the response. Raw response:\n"
                    ++ quiz_text)
      else Message (py "The model did not generate any quiz questions or the response was empty.")
  | _ :: _ => Items quiz_items
  end.

Definition generate_quiz (model : Service) (text : str) (w : World)
  : Result QuizItem * World :=
  if negb (truthy text)
  then (Message (py "Please provide some text to generate a quiz from."), w)
  else
    let '(quiz_text, w') := generate_with_gemini model (quiz_prompt text) w in
    if is_failure quiz_text then (Message quiz_text, w')
    else (extractQuiz quiz_text, w').

Definition generate_answer (model : Service) (context question : str) (w : World)
  : str * World :=
  if negb (truthy context) then (py "Please provide study material first.", w)
  else if negb (truthy question) then (py "Please enter a question.", w)
  else generate_with_gemini model (answer_prompt context question) w.


(** ** Texts in the expected layout *)

Definition pf : flags := pattern_flags.

(** The markers of the two layouts, with the newline that precedes them. *)
Definition mk_question : str := u "Question:".
Definition mk_answer : str := NL :: u "Answer:".
Definition mk_next : str := NL :: NL :: u "Question:".
Definition mk_A : str := NL :: u "A)".
Definition mk_B : str := NL :: u "B)".
Definition mk_C : str := NL :: u "C)".
Definition mk_D : str := NL :: u "D)".

(** [marker f p]: the literal text [p] matches itself, and no match of [p]
    can begin inside another one ([p] is not empty and no proper suffix of
    [p] matches at the front of [p]). *)
Definition marker (f : flags) (p : str) : bool :=
  negb (Nat.eqb (length p) 0)
  && prefix_ci f p p
  && forallb (fun k => negb (prefix_ci f (drop k p) p)) (seq 1 (length p - 1)).

(** A flashcard block: [Question:] and its text, a newline, [Answer:] and
    its text.  The texts are kept as they stand in the block, with the
    white space around them. *)
Record FlashcardBlock := { fb_question : str; fb_answer : str }.

Definition render_flashcard_block (b : FlashcardBlock) : str :=
  mk_question ++ fb_question b ++ mk_answer ++ fb_answer b.

(** A block is well formed when both texts have a visible character, the
    question has no line that begins with [Answer:], and the answer has no
    blank line followed by [Question:]. *)
Definition well_formed_flashcard_block (b : FlashcardBlock) : bool :=
  negb (blank (fb_question b)) && negb (blank (fb_answer b))
  && negb (occurs pf mk_answer (fb_question b))
  && negb (occurs pf mk_next (fb_answer b)).

(** Blocks separated by one blank line. *)
Definition render_flashcard_blocks (bs : list FlashcardBlock) : str :=
  join [NL; NL] (map render_flashcard_block bs).

Definition flashcard_of_block (b : FlashcardBlock) : str * str :=
  (strip (fb_question b), strip (fb_answer b)).

(** The text a generator that follows the prompt of [generate_flashcards]
    to the letter writes for the flashcards [cards]. *)
Definition render_flashcard (c : str * str) : str :=
  py "Question: " ++ c.1 ++ py "\nAnswer: " ++ c.2.

Definition render_flashcards (cards : list (str * str)) : str :=
  join (py "\n\n") (map render_flashcard cards).

(** The block that [render_flashcard] writes for a flashcard. *)
Definition block_of_flashcard (c : str * str) : FlashcardBlock :=
  {| fb_question := 32 :: c.1; fb_answer := 32 :: c.2 |}.

(** A flashcard that survives the round trip: both texts have a visible
    character, the question has no line that begins with [Answer:], the
    answer no blank line followed by [Question:]. *)
Definition plain_flashcard (c : str * str) : bool :=
  negb (blank c.1) && negb (blank c.2)
  && negb (occurs pf mk_answer c.1)
  && negb (occurs pf mk_next c.2).

Definition trim_flashcard (c : str * str) : str * str := (strip c.1, strip c.2).

(** A text is trimmed when [strip] leaves it as it is. *)
Definition trimmed (s : str) : Prop := strip s = s.

(** A quiz block: the question, the four option lines in the order
    A, B, C, D, and the answer line with its letter. *)
Record QuizBlock := {
  qb_question : str;
  qb_A : str;
  qb_B : str;
  qb_C : str;
  qb_D : str;
  qb_gap : str;        (* between [Answer:] and the letter *)
  qb_letter : char
}.

Definition render_quiz_block (b : QuizBlock) : str :=
  mk_question ++ qb_question b ++ mk_A ++ qb_A b ++ mk_B ++ qb_B b
  ++ mk_C ++ qb_C b ++ mk_D ++ qb_D b ++ mk_answer ++ qb_gap b ++ [qb_letter b].

(** The same block without its [C)] line. *)
Definition render_quiz_block_without_C (b : QuizBlock) : str :=
  mk_question ++ qb_question b ++ mk_A ++ qb_A b ++ mk_B ++ qb_B b
  ++ mk_D ++ qb_D b ++ mk_answer ++ qb_gap b ++ [qb_letter b].

Definition answer_letter (c : char) : bool :=
  existsb (N.eqb c) (u "ABCDabcd").

(** A block is well formed when every text has a visible character and
    none contains the marker that ends it, and the answer is one of the
    letters A to D in either case, after white space only. *)
Definition well_formed_quiz_block (b : QuizBlock) : bool :=
  negb (blank (qb_question b)) && negb (occurs pf mk_A (qb_question b))
  && negb (blank (qb_A b)) && negb (occurs pf mk_B (qb_A b))
  && negb (blank (qb_B b)) && negb (occurs pf mk_C (qb_B b))
  && negb (blank (qb_C b)) && negb (occurs pf mk_D (qb_C b))
  && negb (blank (qb_D b)) && negb (occurs pf mk_answer (qb_D b))
  && blank (qb_gap b) && answer_letter (qb_letter b).

Definition quiz_item_of_block (b : QuizBlock) : QuizItem :=
  {| question := strip (qb_question b);
     options := <[u "D" := strip (qb_D b)]> (<[u "C" := strip (qb_C b)]>
                  (<[u "B" := strip (qb_B b)]> (<[u "A" := strip (qb_A b)]> ∅)));
     answer := [ascii_upper (qb_letter b)] |}.

(** Quiz blocks, each followed by a blank line. *)
Definition render_quiz_blocks (bs : list QuizBlock) : str :=
  concat (map (fun b => render_quiz_block b ++ [NL; NL]) bs).

(** The invariant of a quiz item. *)
Definition quiz_item_ok (it : QuizItem) : Prop :=
  dom (options it) = {[ u "A"; u "B"; u "C"; u "D" ]}
  /\ answer it ∈ dom (options it)
  /\ upper (answer it) = answer it.


(** The groups of the match of a well-formed block. *)
Definition flashcard_groups (b : FlashcardBlock) : caps :=
  [(2%nat, lstrip (fb_answer b)); (1%nat, lstrip (fb_question b))].

Definition quiz_groups (b : QuizBlock) : caps :=
  [(6%nat, [qb_letter b]); (5%nat, lstrip (qb_D b)); (4%nat, lstrip (qb_C b));
   (3%nat, lstrip (qb_B b)); (2%nat, lstrip (qb_A b));
   (1%nat, lstrip (qb_question b))].

(** ** Sample inputs *)

(** The flashcard example of the specification. *)
Definition sample_flashcards_text : str :=
  py "Question: What is 2+2?\nAnswer: 4\n\nQuestion: Capital of France?\nAnswer: Paris".

Definition sample_flashcard_blocks : list FlashcardBlock :=
  [ {| fb_question := u " What is 2+2?"; fb_answer := u " 4" |};
    {| fb_question := u " Capital of France?"; fb_answer := u " Paris" |} ].

Definition sample_flashcards : list (str * str) :=
  [ (u "What is 2+2?", u "4"); (u "Capital of France?", u "Paris") ].

(** A flashcard whose question has a second line that begins with
    [Answer:]. *)
Definition two_line_flashcard : str * str :=
  (py "Which line follows?\nAnswer: none", py "The second one").

(** Two quiz blocks. *)
Definition sample_quiz_block_1 : QuizBlock :=
  {| qb_question := u " Largest planet?"; qb_A := u " Mars"; qb_B := u " Jupiter";
     qb_C := u " Venus"; qb_D := u " Earth"; qb_gap := u " "; qb_letter := 66 |}.

Definition sample_quiz_block_2 : QuizBlock :=
  {| qb_question := u " Smallest prime?"; qb_A := u " 0"; qb_B := u " 1";
     qb_C := u " 2"; qb_D := u " 3"; qb_gap := u " "; qb_letter := 99 |}.

(** A block without its [C)] line, a blank line, a well-formed block. *)
Definition merged_quiz_text : str :=
  render_quiz_block_without_C sample_quiz_block_1 ++ [NL; NL]
  ++ render_quiz_block sample_quiz_block_2.

(** The item that [extractQuiz] makes of [merged_quiz_text]. *)
Definition merged_quiz_item : QuizItem :=
  {| question := u "Largest planet?";
     options :=
       <[u "D" := u "3"]> (<[u "C" := u "2"]>
         (<[u "B" := py "Jupiter\nD) Earth\nAnswer: B\n\nQuestion: Smallest prime?\nA) 0\nB) 1"]>
           (<[u "A" := u "Mars"]> ∅)));
     answer := u "C" |}.

(** A service that answers every prompt with the same reply. *)
Definition constant_service (reply : Exc Response) : Service :=
  fun _ _ _ => reply.

Definition sample_accessor_error : Exception :=
  {| exc_str := u "The response.parts quick accessor requires a single candidate, but none were returned." |}.

(** A response with one candidate that finished normally with the text
    [t]. *)
Definition text_response (t : str) : Response :=
  {| prompt_feedback := None;
     candidates := [ {| finish_reason := {| finish_reason_name := u "STOP" |};
                        content_parts := [t] |} ];
     accessor_error := sample_accessor_error;
     text := Return t |}.

(** The response to a blocked prompt: a block reason and no candidate. *)
Definition blocked_response (reason : str) : Response :=
  {| prompt_feedback := Some {| block_reason := Some {| block_reason_name := reason |} |};
     candidates := [];
     accessor_error := sample_accessor_error;
     text := Raise sample_accessor_error |}.

(** A response whose only candidate has no parts and finished for the
    reason named [finish]. *)
Definition empty_candidate_response (feedback : option PromptFeedback)
    (finish : str) : Response :=
  {| prompt_feedback := feedback;
     candidates := [ {| finish_reason := {| finish_reason_name := finish |};
                        content_parts := [] |} ];
     accessor_error := sample_accessor_error;
     text := Raise {| exc_str := u "The response.text quick accessor requires a valid Part." |} |}.

(** A reply that begins like a failure message and goes on with a
    well-formed flashcard block. *)
Definition error_like_text : str :=
  py "Error: see below\n\nQuestion: What is 2+2?\nAnswer: 4".

(** ** Substrings and variants of a marker *)

(** [x] occurs in [t] as a run of consecutive characters. *)
Definition substring (x t : str) : Prop := exists a b, t = a ++ x ++ b.

(** Every captured group is a substring of [t]. *)
Definition caps_within (t : str) (g : caps) : Prop :=
  forall n x, In (n, x) g -> substring x t.

(** [variant f p p']: [p'] is the literal text [p] in some spelling that
    the pattern [p] matches under the flags [f], character by character. *)
Fixpoint variant (f : flags) (p p' : str) {struct p} : bool :=
  match p, p' with
  | [], [] => true
  | c :: q, x :: q' => lit_match f c x && variant f q q'
  | _, _ => false
  end.

(** A flashcard block whose two markers are written in any spelling. *)
Definition render_flashcard_block_as (mq ma : str) (b : FlashcardBlock) : str :=
  mq ++ fb_question b ++ ma ++ fb_answer b.

(** ** The quiz results page *)

(** The calls of the display library, in the order they are made. *)
Inductive Widget :=
| st_subheader (s : str)
| st_markdown (s : str)
| st_write (s : str)
| st_success (s : str)
| st_error (s : str)
| st_warning (s : str).

(** [str(n)] for a number [n] that is not negative. *)
Definition str_of_nat (n : nat) : str :=
  u (NilZero.string_of_uint (Nat.to_uint n)).

(** [s.split(')')[0]]: what stands before the first closing parenthesis. *)
Fixpoint before_paren (s : str) : str :=
  match s with
  | [] => []
  | c :: s' => if c =? 41 then [] else c :: before_paren s'
  end.

(** [f"{k}) {v}"], the label of an option in the radio widget. *)
Definition option_label (k v : str) : str := k ++ py ") " ++ v.

(** [st.session_state.quiz_answers]: for the number of a question, what
    the radio widget returned, a label or [None]. *)
Definition get_answer (quiz_answers : gmap nat (option str)) (i : nat)
  : option str :=
  match quiz_answers !! i with
  | Some a => a
  | None => None
  end.

(** Truth value of a string or [None]. *)
Definition truthy_opt (o : option str) : bool :=
  match o with
  | Some s => truthy s
  | None => false
  end.

(** One round of the loop of the results page, from the score so far to
    the widgets shown and the new score.  [None] stands for the
    [KeyError] of [item['options'][correct_answer]]. *)
Definition grade_item (i : nat) (item : QuizItem)
    (quiz_answers : gmap nat (option str)) (score : nat)
  : option (list Widget * nat) :=
  let user_answer_full := get_answer quiz_answers i in
  let user_answer_letter :=
    if truthy_opt user_answer_full
    then before_paren <$> user_answer_full
    else None in
  let correct_answer := answer item in
  match options item !! correct_answer with
  | None => None
  | Some correct_text =>
      let shown :=
        [ st_markdown (py "**Question " ++ str_of_nat (i + 1) ++ py ":** "
                    ++ question item);
          st_write (py "Your answer: "
                 ++ match user_answer_full with
                    | Some s => if truthy s then s else py "Not answered"
                    | None => py "Not answered"
                    end);
          st_write (py "Correct answer: " ++ correct_answer ++ py ") "
                 ++ correct_text) ] in
      if bool_decide (user_answer_letter = Some correct_answer)
      then Some (shown ++ [st_success (py "Correct!"); st_markdown (py "---")], S score)
      else if truthy_opt user_answer_full
      then Some (shown ++ [st_error (py "Incorrect."); st_markdown (py "---")], score)
      else Some (shown ++ [st_warning (py "Not answered."); st_markdown (py "---")], score)
  end.

(** [for i, item in enumerate(quiz_data)], from the index [i] on. *)
Fixpoint grade_loop (i : nat) (quiz_data : list QuizItem)
    (quiz_answers : gmap nat (option str)) (score : nat)
  : option (list Widget * nat) :=
  match quiz_data with
  | [] => Some ([], score)
  | item :: rest =>
      match grade_item i item quiz_answers score with
      | None => None
      | Some (shown, score') =>
          match grade_loop (S i) rest quiz_answers score' with
          | None => None
          | Some (shown', score'') => Some (shown ++ shown', score'')
          end
      end
  end.

(** The line with the final score. *)
Definition score_line (score total : nat) : Widget :=
  st_markdown (py "**Your final score: " ++ str_of_nat score ++ py "/"
            ++ str_of_nat total ++ py "**").

(** The results branch of the quiz tab, up to the line with the final
    score: the widgets shown and the score. *)
Definition quiz_results (quiz_data : list QuizItem)
    (quiz_answers : gmap nat (option str)) : option (list Widget * nat) :=
  let total := length quiz_data in
  match grade_loop 0 quiz_data quiz_answers 0 with
  | None => None
  | Some (shown, score) =>
      Some ([st_subheader (py "Quiz Results")] ++ shown ++ [score_line score total],
            score)
  end.

(** The verdict in the widgets of one round. *)
Definition is_success (w : Widget) : bool :=
  match w with st_success _ => true | _ => false end.

(** Truth value of what a helper returned: a string or a list. *)
Definition result_truthy {T : Type} (r : Result T) : bool :=
  match r with
  | Message s => truthy s
  | Items l => match l with [] => false | _ :: _ => true end
  end.

(** Answers of a user who picks, for every question, the option under
    the key that is the stored answer. *)
Fixpoint perfect_answers (i : nat) (quiz_data : list QuizItem)
  : gmap nat (option str) :=
  match quiz_data with
  | [] => ∅
  | item :: rest =>
      <[i := Some (option_label (answer item)
                     (default [] (options item !! answer item)))]>
        (perfect_answers (S i) rest)
  end.

(** Sample inputs. *)
Definition sample_quiz_items : list QuizItem :=
  [quiz_item_of_block sample_quiz_block_1; quiz_item_of_block sample_quiz_block_2].

Definition sample_quiz_answers : gmap nat (option str) :=
  <[0%nat := Some (u "B) Jupiter")]> (<[1%nat := Some (u "A) 0")]> ∅).

(** ** Markers in order *)

(** [chain f ps fin s]: the literal texts [ps] match in [s] one behind the
    other, in this order and with anything between them, and [fin] holds
    of what follows the last. *)
Fixpoint chain (f : flags) (ps : list str) (fin : str -> bool) (s : str) : bool :=
  match ps with
  | [] => fin s
  | p :: ps' =>
      (fix search (s : str) : bool :=
         (prefix_ci f p s && chain f ps' fin (drop (length p) s))
         || match s with
            | [] => false
            | _ :: s' => search s'
            end) s
  end.

(** White space, then a letter from A to D in either case. *)
Definition letter_next (s : str) : bool :=
  match lstrip s with
  | x :: _ => answer_letter x
  | [] => false
  end.

(** The part of a pattern made of fields: white space, a lazy group and
    the marker that ends it, for each pair of [l]; then [rest]. *)
Fixpoint fields (l : list (nat * str)) (rest : list regex) : list regex :=
  match l with
  | [] => rest
  | (n, p) :: l' =>
      StarG CSpace :: Group n (StarL CAny) :: lits p :: fields l' rest
  end.

(** The number of [st.success] calls among the widgets shown. *)
Definition successes (ws : list Widget) : nat :=
  length (List.filter is_success ws).

(** The markers of a flashcard block in some spelling, and the block. *)
Record SpelledFlashcardBlock := {
  sp_question_marker : str;
  sp_answer_marker : str;
  sp_block : FlashcardBlock
}.

Definition render_spelled_block (sb : SpelledFlashcardBlock) : str :=
  render_flashcard_block_as (sp_question_marker sb) (sp_answer_marker sb)
    (sp_block sb).

Definition render_spelled_blocks (l : list SpelledFlashcardBlock) : str :=
  join [NL; NL] (map render_spelled_block l).

(** The markers are spellings of [Question:] and of newline, [Answer:],
    and the block is well formed. *)
Definition well_spelled (sb : SpelledFlashcardBlock) : bool :=
  variant pf mk_question (sp_question_marker sb)
  && variant pf mk_answer (sp_answer_marker sb)
  && well_formed_flashcard_block (sp_block sb).

Definition sample_spelled_blocks : list SpelledFlashcardBlock :=
  [ {| sp_question_marker := u "QUESTION:"; sp_answer_marker := NL :: u "answer:";
       sp_block := {| fb_question := u " What is 2+2?"; fb_answer := u " 4" |} |};
    {| sp_question_marker := u "question:"; sp_answer_marker := NL :: u "ANSWER:";
       sp_block := {| fb_question := u " Capital of France?";
                      fb_answer := u " Paris" |} |} ].

(** ** Facts about strings *)

Section StringFacts.

Lemma lstrip_app_blank (ws s : str) :
    blank ws = true -> lstrip (ws ++ s) = lstrip s.
  Proof.
    induction ws as [|c ws IH]; simpl; [reflexivity|].
    intros H. apply andb_prop in H as [Hc Hws]. rewrite Hc. auto.
  Qed.

Lemma lstrip_app_nonblank (x t : str) :
    blank x = false -> lstrip (x ++ t) = lstrip x ++ t.
  Proof.
    induction x as [|c x IH]; simpl; [discriminate|].
    destruct (is_space c); simpl; auto.
  Qed.

Lemma lstrip_suffix (s : str) : suffix (lstrip s) s.
  Proof.
    induction s as [|c s IH]; simpl; [reflexivity|].
    destruct (is_space c); [by apply suffix_cons_r | reflexivity].
  Qed.

Lemma lstrip_nonblank (x : str) : blank x = false -> lstrip x <> [].
  Proof.
    induction x as [|c x IH]; simpl; [discriminate|].
    destruct (is_space c) eqn:E; simpl; [auto | discriminate].
  Qed.

Lemma lstrip_blank (x : str) : blank x = true -> lstrip x = [].
  Proof.
    induction x as [|c x IH]; simpl; [reflexivity|].
    destruct (is_space c); simpl; [auto | discriminate].
  Qed.

Lemma blank_lstrip (x : str) : blank (lstrip x) = blank x.
  Proof.
    induction x as [|c x IH]; simpl; [reflexivity|].
    destruct (is_space c) eqn:E; simpl; [auto | by rewrite E].
  Qed.

Lemma lstrip_idemp (x : str) : lstrip (lstrip x) = lstrip x.
  Proof.
    induction x as [|c x IH]; simpl; [reflexivity|].
    destruct (is_space c) eqn:E; simpl; [auto | by rewrite E].
  Qed.

Lemma blank_app (x y : str) : blank (x ++ y) = blank x && blank y.
  Proof. apply forallb_app. Qed.

Lemma blank_rev (x : str) : blank (rev x) = blank x.
  Proof.
    induction x as [|c x IH]; simpl; [reflexivity|].
    rewrite blank_app, IH. simpl. rewrite andb_true_r. apply andb_comm.
  Qed.

Lemma blank_rstrip (x : str) : blank (rstrip x) = blank x.
  Proof. unfold rstrip. by rewrite blank_rev, blank_lstrip, blank_rev. Qed.

Lemma blank_strip (x : str) : blank (strip x) = blank x.
  Proof. unfold strip. by rewrite blank_rstrip, blank_lstrip. Qed.

  (** Stripping a string that has a visible character leaves something. *)
Lemma strip_nonblank (x : str) : blank x = false -> strip x <> [].
  Proof.
    intros H E. rewrite <- blank_strip in H. rewrite E in H. discriminate.
  Qed.

Lemma strip_blank (x : str) : blank x = true -> strip x = [].
  Proof.
    intros H. unfold strip. rewrite (lstrip_blank x H). reflexivity.
  Qed.

Lemma truthy_strip (x : str) : truthy (strip x) = negb (blank x).
  Proof.
    destruct (blank x) eqn:E.
    - by rewrite (strip_blank x E).
    - pose proof (strip_nonblank x E). by destruct (strip x).
  Qed.

  (** The white space that a greedy [\s*] took from the front of a field
      does not change what [strip] makes of it. *)
Lemma strip_lstrip (x : str) : strip (lstrip x) = strip x.
  Proof. unfold strip. by rewrite lstrip_idemp. Qed.

Lemma startswith_app (p t : str) : startswith (p ++ t) p = true.
  Proof.
    induction p as [|c p IH]; simpl; [reflexivity|].
    by rewrite N.eqb_refl, IH.
  Qed.

End StringFacts.

(** ** Facts about the matcher *)

Section MatcherFacts.
Variable f : flags.

Lemma prefix_ci_app_short (p a b : str) :
    (length p <= length a)%nat -> prefix_ci f p (a ++ b) = prefix_ci f p a.
  Proof.
    revert a. induction p as [|c p IH]; intros a Hl; [by destruct a|].
    destruct a as [|x a]; simpl in *; [lia|].
    rewrite IH; [reflexivity | lia].
  Qed.

  (** A match of [p] that begins inside [a] and runs on into [b]. *)
Lemma prefix_ci_app_long (p a b : str) :
    (length a < length p)%nat ->
    prefix_ci f p (a ++ b) = true ->
    prefix_ci f (drop (length a) p) b = true.
  Proof.
    revert p. induction a as [|x a IH]; intros p Hl H; [by rewrite drop_0|].
    destruct p as [|c p]; simpl in *; [lia|].
    apply andb_prop in H as [_ H]. apply IH; [lia | exact H].
  Qed.

Lemma occurs_suffix (p s s' : str) :
    suffix s' s -> occurs f p s = false -> occurs f p s' = false.
  Proof.
    intros [pre ->]. induction pre as [|c pre IH]; simpl; [auto|].
    intros H. apply orb_false_elim in H as [_ H]. auto.
  Qed.

Lemma occurs_prefix_ci (p s : str) :
    occurs f p s = false -> prefix_ci f p s = false.
  Proof. destruct s; simpl; intros H; by apply orb_false_elim in H as [H _]. Qed.

Lemma occurs_app_l (p a b : str) :
    occurs f p (a ++ b) = false -> p <> [] -> occurs f p a = false.
  Proof.
    intros H Hp. induction a as [|x a IH].
    - destruct p; [done | reflexivity].
    - simpl in *. apply orb_false_elim in H as [H1 H2].
      rewrite (IH H2), orb_false_r.
      destruct (prefix_ci f p (x :: a)) eqn:E; [|reflexivity].
      destruct (decide (length p <= length (x :: a))%nat) as [Hl|Hl].
      + change (x :: a ++ b) with ((x :: a) ++ b) in H1.
        rewrite prefix_ci_app_short in H1 by exact Hl. congruence.
      + exfalso. clear -E Hl. revert E Hl. generalize (x :: a) as l.
        induction p as [|c p IH]; intros l E Hl; simpl in *; [lia|].
        destruct l as [|y l]; [discriminate|]. simpl in *.
        apply andb_prop in E as [_ E]. apply (IH l E). lia.
  Qed.

Section Conts.
Context {A : Type}.

Lemma rmatch_cat_cons r rs s g (k : str -> caps -> option A) :
    rmatch f (cat (r :: rs)) s g k
    = rmatch f r s g (fun s' g' => rmatch f (cat rs) s' g' k).
  Proof. reflexivity. Qed.

Lemma rmatch_cat_nil s g (k : str -> caps -> option A) :
    rmatch f (cat []) s g k = k s g.
  Proof. reflexivity. Qed.

Lemma rmatch_lits_fail p s g (k : str -> caps -> option A) :
    prefix_ci f p s = false -> rmatch f (lits p) s g k = None.
  Proof.
    revert s. induction p as [|c p IH]; intros s H; [discriminate|].
    destruct s as [|x s]; simpl in *; [reflexivity|].
    destruct (lit_match f c x); simpl in *; [by apply IH | reflexivity].
  Qed.

Lemma rmatch_lits_ok p s g (k : str -> caps -> option A) :
    prefix_ci f p s = true ->
    rmatch f (lits p) s g k = k (drop (length p) s) g.
  Proof.
    revert s. induction p as [|c p IH]; intros s H; [reflexivity|].
    destruct s as [|x s]; simpl in *; [discriminate|].
    apply andb_prop in H as [Hc H]. rewrite Hc. by apply IH.
  Qed.

  (** [\s*] stops at the first character that is not white space; if what
      follows the repetition matches there, nothing is given back. *)
Lemma greedy_lstrip s (k : str -> option A) r :
    k (lstrip s) = Some r -> greedy f CSpace s k = Some r.
  Proof.
    induction s as [|x s IH]; simpl; [auto|].
    destruct (is_space x); [|auto].
    intros H. by rewrite (IH H).
  Qed.

  (** [.*?] under DOTALL goes on to the first place where what follows
      matches. *)
Lemma lazy_skip pre t (k : str -> option A) :
    DOTALL f = true ->
    (forall p1 p2, pre = p1 ++ p2 -> p2 <> [] -> k (p2 ++ t) = None) ->
    lazy f CAny (pre ++ t) k = lazy f CAny t k.
  Proof.
    intros Hd. induction pre as [|c pre IH]; intros H; [reflexivity|].
    change ((c :: pre) ++ t) with (c :: (pre ++ t)).
    cbn [lazy].
    change (c :: (pre ++ t)) with ((c :: pre) ++ t).
    rewrite (H [] (c :: pre) eq_refl) by discriminate.
    simpl cls_match. rewrite Hd. simpl orb. cbv iota.
    apply IH. intros p1 p2 -> Hp2. apply (H (c :: p1) p2); [reflexivity | exact Hp2].
  Qed.

Lemma lazy_here c t (k : str -> option A) r :
    k t = Some r -> lazy f c t k = Some r.
  Proof. intros H. destruct t; simpl; by rewrite H. Qed.

Lemma greedy_none c s (k : str -> option A) :
    (forall s', suffix s' s -> k s' = None) -> greedy f c s k = None.
  Proof.
    induction s as [|x s IH]; intros H; simpl.
    - by apply H.
    - rewrite IH.
      + rewrite (H (x :: s)) by reflexivity. by destruct (cls_match f c x).
      + intros s' Hs. apply H. by apply suffix_cons_r.
  Qed.

Lemma lazy_none c s (k : str -> option A) :
    (forall s', suffix s' s -> k s' = None) -> lazy f c s k = None.
  Proof.
    induction s as [|x s IH]; intros H; simpl.
    - by rewrite (H []).
    - rewrite (H (x :: s)) by reflexivity.
      destruct (cls_match f c x); [|reflexivity].
      apply IH. intros s' Hs. apply H. by apply suffix_cons_r.
  Qed.

End Conts.

  (** A pattern fails when what follows it fails at every place the
      pattern could stop. *)
Lemma rmatch_none r : forall {A : Type} s g (k : str -> caps -> option A),
    (forall s' g', suffix s' s -> k s' g' = None) -> rmatch f r s g k = None.
  Proof.
    induction r as [|c|r1 IH1 r2 IH2|r1 IH1 r2 IH2|c|c|n r1 IH1|r1 IH1|];
      intros A s g k H; simpl.
    - by apply H.
    - destruct s as [|x s]; [reflexivity|].
      destruct (cls_match f c x); [|reflexivity].
      apply H. by apply suffix_cons_r.
    - apply IH1. intros s' g' Hs. apply IH2. intros s'' g'' Hs'.
      apply H. by etrans.
    - rewrite IH1 by exact H. by apply IH2.
    - apply greedy_none. intros s' Hs. by apply H.
    - apply lazy_none. intros s' Hs. by apply H.
    - apply IH1. intros s' g' Hs. by apply H.
    - destruct (rmatch f r1 s g _); [|reflexivity]. by apply H.
    - destruct s; [|reflexivity]. by apply H.
  Qed.

  (** A pattern one of whose parts is a literal text fails on a string in
      which that text does not occur. *)
Lemma rmatch_cat_requires {A : Type} rs1 p rs2 : forall s g (k : str -> caps -> option A),
    occurs f p s = false ->
    rmatch f (cat (rs1 ++ lits p :: rs2)) s g k = None.
  Proof.
    induction rs1 as [|r rs1 IH]; intros s g k H.
    - simpl app. rewrite rmatch_cat_cons.
      apply rmatch_lits_fail. by apply occurs_prefix_ci.
    - simpl app. rewrite rmatch_cat_cons. apply rmatch_none.
      intros s' g' Hs. apply IH. by apply (occurs_suffix p s).
  Qed.

End MatcherFacts.

(** ** Fields between markers *)

Section FieldFacts.
Variable f : flags.
Hypothesis f_dotall : DOTALL f = true.

Lemma marker_nonempty p : marker f p = true -> p <> [].
Proof.
  unfold marker. intros H ->. simpl in H. discriminate.
Qed.

Lemma marker_self p t : marker f p = true -> prefix_ci f p (p ++ t) = true.
Proof.
  unfold marker. intros H.
  apply andb_prop in H as [H _]. apply andb_prop in H as [_ H].
  rewrite prefix_ci_app_short by reflexivity. exact H.
Qed.

Lemma marker_border p t k :
  marker f p = true -> (0 < k < length p)%nat ->
  prefix_ci f (drop k p) (p ++ t) = false.
Proof.
  unfold marker. intros H Hk.
  apply andb_prop in H as [_ H].
  rewrite forallb_forall in H.
  rewrite prefix_ci_app_short by (rewrite length_drop; lia).
  apply negb_true_iff, H, in_seq. lia.
Qed.

(** Inside a text [x] in which the marker [p] does not occur, and which
    is followed by [p] or by the end of the string, [p] matches nowhere
    before the end of [x]. *)
Lemma marker_not_inside p x p1 p2 t :
  marker f p = true ->
  occurs f p x = false ->
  x = p1 ++ p2 -> p2 <> [] ->
  t = [] \/ (exists t', t = p ++ t') ->
  prefix_ci f p (p2 ++ t) = false.
Proof.
  intros Hm Hx -> Hp2 Ht.
  destruct (prefix_ci f p (p2 ++ t)) eqn:E; [exfalso | reflexivity].
  destruct (decide (length p <= length p2)%nat) as [Hl|Hl].
  - rewrite prefix_ci_app_short in E by exact Hl.
    assert (occurs f p p2 = false) as Ho
      by (apply (occurs_suffix f p (p1 ++ p2)); [by apply suffix_app_r | exact Hx]).
    apply occurs_prefix_ci in Ho. congruence.
  - apply prefix_ci_app_long in E; [|lia].
    assert (0 < length p2 < length p)%nat as Hk
      by (destruct p2; [done | simpl in *; lia]).
    destruct Ht as [-> | [t' ->]].
    + destruct (drop (length p2) p) eqn:Ed; [|discriminate].
      apply (f_equal length) in Ed. rewrite length_drop in Ed. simpl in Ed. lia.
    + rewrite marker_border in E by assumption. discriminate.
Qed.

Section Conts.
Context {A : Type}.

(** White space, a lazily captured field, then the rest of the pattern:
    when the rest fails everywhere inside the field and matches at its
    end, the group is the field without its leading white space. *)
Lemma rmatch_field n rs ws x t g (k : str -> caps -> option A) r :
  blank ws = true -> blank x = false ->
  (forall p1 p2 g', lstrip x = p1 ++ p2 -> p2 <> [] ->
     rmatch f (cat rs) (p2 ++ t) g' k = None) ->
  rmatch f (cat rs) t ((n, lstrip x) :: g) k = Some r ->
  rmatch f (cat (StarG CSpace :: Group n (StarL CAny) :: rs)) (ws ++ x ++ t) g k
  = Some r.
Proof.
  intros Hws Hx Hfail Hok.
  rewrite rmatch_cat_cons. cbn [rmatch].
  apply greedy_lstrip.
  rewrite lstrip_app_blank by exact Hws.
  rewrite lstrip_app_nonblank by exact Hx.
  rewrite rmatch_cat_cons. cbn [rmatch].
  rewrite lazy_skip; [|exact f_dotall|].
  - apply lazy_here.
    rewrite length_app.
    replace (length (lstrip x) + length t - length t)%nat with (length (lstrip x)) by lia.
    rewrite take_app_length. exact Hok.
  - intros p1 p2 E Hp2. by apply (Hfail p1 p2).
Qed.

(** The field ends at the marker [p]. *)
Lemma rmatch_field_lits n p rs ws x t g (k : str -> caps -> option A) r :
  marker f p = true ->
  blank ws = true -> blank x = false -> occurs f p x = false ->
  rmatch f (cat rs) t ((n, lstrip x) :: g) k = Some r ->
  rmatch f (cat (StarG CSpace :: Group n (StarL CAny) :: lits p :: rs))
    (ws ++ x ++ p ++ t) g k
  = Some r.
Proof.
  intros Hm Hws Hx Ho Hok.
  apply rmatch_field; try assumption.
  - intros p1 p2 g' E Hp2. rewrite rmatch_cat_cons.
    apply rmatch_lits_fail.
    destruct (lstrip_suffix x) as [pre Hpre].
    apply (marker_not_inside p x (pre ++ p1) p2); try assumption.
    + rewrite <- app_assoc, <- E. exact Hpre.
    + right. by exists t.
  - rewrite rmatch_cat_cons, rmatch_lits_ok by (by apply marker_self).
    rewrite drop_app_length. exact Hok.
Qed.

(** The field ends where [(?=p|\Z)] holds: before [p] or at the end of the
    string. *)
Lemma rmatch_field_look n p ws x t g (k : str -> caps -> option A) r :
  marker f p = true ->
  blank ws = true -> blank x = false -> occurs f p x = false ->
  t = [] \/ (exists t', t = p ++ t') ->
  k t ((n, lstrip x) :: g) = Some r ->
  rmatch f (cat [StarG CSpace; Group n (StarL CAny); Look (Alt (lits p) EndZ)])
    (ws ++ x ++ t) g k
  = Some r.
Proof.
  intros Hm Hws Hx Ho Ht Hok.
  apply rmatch_field; try assumption.
  - intros p1 p2 g' E Hp2. rewrite rmatch_cat_cons. cbn [rmatch].
    rewrite rmatch_lits_fail.
    + destruct (p2 ++ t) eqn:E2; [|reflexivity].
      apply app_eq_nil in E2 as [? _]. contradiction.
    + destruct (lstrip_suffix x) as [pre Hpre].
      apply (marker_not_inside p x (pre ++ p1) p2); try assumption.
      rewrite <- app_assoc, <- E. exact Hpre.
  - rewrite rmatch_cat_cons. cbn [rmatch].
    destruct Ht as [-> | [t' ->]].
    + rewrite rmatch_lits_fail.
      * exact Hok.
      * pose proof (marker_nonempty p Hm). by destruct p.
    + rewrite rmatch_lits_ok by (by apply marker_self). exact Hok.
Qed.

End Conts.
End FieldFacts.

(** ** Facts about [findall] *)

Section ScanFacts.
Variable f : flags.
Variable r : regex.

Lemma scan_skip m rest : scan f r (m ++ rest) (length m) = scan f r rest 0.
Proof. induction m as [|c m IH]; [reflexivity | exact IH]. Qed.

(** After a match the search goes on behind it. *)
Lemma findall_match m rest g :
  m <> [] -> match_here f r (m ++ rest) = Some (rest, g) ->
  findall f r (m ++ rest) = g :: findall f r rest.
Proof.
  intros Hm H. destruct m as [|c m]; [done|]. unfold findall.
  change ((c :: m) ++ rest) with (c :: (m ++ rest)) in *.
  cbn [scan]. rewrite H. f_equal.
  replace (length (c :: m ++ rest) - length rest - 1)%nat with (length m)
    by (simpl; rewrite length_app; lia).
  apply scan_skip.
Qed.

(** Where there is no match the search moves on by one character. *)
Lemma findall_nomatch c s :
  match_here f r (c :: s) = None -> findall f r (c :: s) = findall f r s.
Proof. intros H. unfold findall. cbn [scan]. by rewrite H. Qed.

Lemma scan_none s : forall n,
  (forall s', suffix s' s -> match_here f r s' = None) -> scan f r s n = [].
Proof.
  induction s as [|c s IH]; intros n H.
  - destruct n; [|reflexivity]. cbn [scan]. by rewrite (H []).
  - destruct n; cbn [scan].
    + rewrite (H (c :: s)) by reflexivity.
      apply IH. intros s' Hs. apply H. by apply suffix_cons_r.
    + apply IH. intros s' Hs. apply H. by apply suffix_cons_r.
Qed.

Lemma findall_none s :
  (forall s', suffix s' s -> match_here f r s' = None) -> findall f r s = [].
Proof. apply scan_none. Qed.

End ScanFacts.

(** ** The flashcard pattern on well-formed blocks *)

Section FlashcardFacts.

Lemma pf_dotall : DOTALL pf = true.
Proof. reflexivity. Qed.

Lemma marker_question : marker pf mk_question = true.
Proof. vm_compute. reflexivity. Qed.

Lemma marker_answer : marker pf mk_answer = true.
Proof. vm_compute. reflexivity. Qed.

Lemma marker_next : marker pf mk_next = true.
Proof. vm_compute. reflexivity. Qed.

Lemma well_formed_flashcard_block_spec b :
  well_formed_flashcard_block b = true ->
  blank (fb_question b) = false /\ blank (fb_answer b) = false
  /\ occurs pf mk_answer (fb_question b) = false
  /\ occurs pf mk_next (fb_answer b) = false.
Proof.
  unfold well_formed_flashcard_block. intros H.
  repeat (apply andb_prop in H as [H ?]).
  repeat split; by apply negb_true_iff.
Qed.

(** The pattern matches a well-formed block that is followed by the end of
    the text or by a blank line and [Question:], and stops at the end of
    the block. *)
Lemma flashcard_match_block b t :
  well_formed_flashcard_block b = true ->
  t = [] \/ (exists t', t = mk_next ++ t') ->
  match_here pf flashcard_pattern (render_flashcard_block b ++ t)
  = Some (t, flashcard_groups b).
Proof.
  intros Hwf Ht.
  apply well_formed_flashcard_block_spec in Hwf as (Hq & Ha & Hoq & Hoa).
  unfold match_here, flashcard_pattern, render_flashcard_block.
  rewrite <- !app_assoc.
  rewrite rmatch_cat_cons.
  rewrite (rmatch_lits_ok pf mk_question) by (apply marker_self, marker_question).
  rewrite drop_app_length.
  apply (rmatch_field_lits pf pf_dotall 1 mk_answer _ [] (fb_question b));
    [apply marker_answer | reflexivity | assumption | assumption |].
  apply (rmatch_field_look pf pf_dotall 2 mk_next [] (fb_answer b));
    [apply marker_next | reflexivity | assumption | assumption | assumption |].
  reflexivity.
Qed.

Lemma render_flashcard_block_nonempty b : render_flashcard_block b <> [].
Proof. discriminate. Qed.

Lemma flashcard_no_match_at_newline s :
  match_here pf flashcard_pattern (NL :: s) = None.
Proof.
  unfold match_here, flashcard_pattern. rewrite rmatch_cat_cons.
  by apply rmatch_lits_fail.
Qed.

Lemma render_flashcard_blocks_cons b bs :
  render_flashcard_blocks (b :: bs)
  = render_flashcard_block b
    ++ match bs with [] => [] | _ :: _ => [NL; NL] ++ render_flashcard_blocks bs end.
Proof.
  unfold render_flashcard_blocks. destruct bs; simpl; [by rewrite app_nil_r | reflexivity].
Qed.

Lemma render_flashcard_blocks_starts b bs :
  exists t, render_flashcard_blocks (b :: bs) = mk_question ++ t.
Proof.
  rewrite render_flashcard_blocks_cons. unfold render_flashcard_block.
  rewrite <- !app_assoc. eauto.
Qed.

(** The matches of the pattern in a text made of well-formed blocks: one
    for each block, in the order of the blocks. *)
Lemma flashcard_matches_blocks bs :
  forallb well_formed_flashcard_block bs = true ->
  flashcard_matches (render_flashcard_blocks bs) = map flashcard_groups bs.
Proof.
  induction bs as [|b bs IH]; intros H; [reflexivity|].
  simpl in H. apply andb_prop in H as [Hb Hbs].
  rewrite render_flashcard_blocks_cons. unfold flashcard_matches.
  destruct bs as [|b' bs].
  - rewrite (findall_match pf flashcard_pattern _ [] (flashcard_groups b)).
    + reflexivity.
    + apply render_flashcard_block_nonempty.
    + apply flashcard_match_block; auto.
  - destruct (render_flashcard_blocks_starts b' bs) as [t' Ht'].
    rewrite (findall_match pf flashcard_pattern _ _ (flashcard_groups b)).
    + simpl map. f_equal.
      change ([NL; NL] ++ render_flashcard_blocks (b' :: bs))
        with (NL :: NL :: render_flashcard_blocks (b' :: bs)).
      rewrite !findall_nomatch by apply flashcard_no_match_at_newline.
      apply (IH Hbs).
    + apply render_flashcard_block_nonempty.
    + apply flashcard_match_block; [exact Hb|].
      right. exists t'. rewrite Ht'. reflexivity.
Qed.

End FlashcardFacts.

(** ** What a successful match went through *)

Section SuccessFacts.
Variable f : flags.

Lemma greedy_some {A : Type} c s (k : str -> option A) r :
  greedy f c s k = Some r -> exists s', suffix s' s /\ k s' = Some r.
Proof.
  induction s as [|x s IH]; simpl; intros H.
  - by exists [].
  - destruct (cls_match f c x).
    + destruct (greedy f c s k) eqn:E.
      * destruct (IH H) as (s' & Hs & Hk).
        exists s'. split; [by apply suffix_cons_r | exact Hk].
      * by exists (x :: s).
    + by exists (x :: s).
Qed.

Lemma lazy_some {A : Type} c s (k : str -> option A) r :
  lazy f c s k = Some r -> exists s', suffix s' s /\ k s' = Some r.
Proof.
  induction s as [|x s IH]; simpl; intros H.
  - destruct (k []) eqn:E; [|discriminate].
    exists []. split; [reflexivity | congruence].
  - destruct (k (x :: s)) eqn:E.
    + exists (x :: s). split; [reflexivity | congruence].
    + destruct (cls_match f c x); [|discriminate].
      destruct (IH H) as (s' & Hs & Hk).
      exists s'. split; [by apply suffix_cons_r | exact Hk].
Qed.

(** A match that succeeds ends in a success of what follows it. *)
Lemma rmatch_some r : forall {A : Type} s g (k : str -> caps -> option A) res,
  rmatch f r s g k = Some res ->
  exists s' g', suffix s' s /\ k s' g' = Some res.
Proof.
  induction r as [|c|r1 IH1 r2 IH2|r1 IH1 r2 IH2|c|c|n r1 IH1|r1 IH1|];
    intros A s g k res H; simpl in H.
  - by exists s, g.
  - destruct s as [|x s]; [discriminate|].
    destruct (cls_match f c x); [|discriminate].
    exists s, g. split; [by apply suffix_cons_r | exact H].
  - apply IH1 in H as (s1 & g1 & Hs1 & H).
    apply IH2 in H as (s2 & g2 & Hs2 & H).
    exists s2, g2. split; [by etrans | exact H].
  - destruct (rmatch f r1 s g k) eqn:E.
    + inversion H; subst. by apply IH1 in E.
    + by apply IH2 in H.
  - apply greedy_some in H as (s' & Hs & H). by exists s', g.
  - apply lazy_some in H as (s' & Hs & H). by exists s', g.
  - apply IH1 in H as (s1 & g1 & Hs1 & H). eauto.
  - destruct (rmatch f r1 s g _) as [g1|]; [|discriminate]. by exists s, g1.
  - destruct s; [|discriminate]. by exists [], g.
Qed.

(** The last group of a pattern that ends in a group of one character. *)
Lemma rmatch_last_group rs n c : forall s g res,
  rmatch f (cat (rs ++ [Group n (Chr c)])) s g (fun s' g' => Some (s', g')) = Some res ->
  exists x g', res.2 = (n, [x]) :: g' /\ cls_match f c x = true.
Proof.
  induction rs as [|r rs IH]; intros s g res H.
  - simpl in H. destruct s as [|x s]; [discriminate|].
    destruct (cls_match f c x) eqn:E; [|discriminate].
    inversion H; subst. exists x, g. split; [|exact E]. simpl.
    replace (S (length s) - length s)%nat with 1%nat by lia. reflexivity.
  - simpl app in H. rewrite rmatch_cat_cons in H.
    apply rmatch_some in H as (s1 & g1 & _ & H). by apply IH in H.
Qed.

(** Every element of the result of [findall] is the groups of a match. *)
Lemma scan_elem r s : forall n g,
  In g (scan f r s n) -> exists s' rest, match_here f r s' = Some (rest, g).
Proof.
  induction s as [|c s IH]; intros n g H.
  - destruct n; [|contradiction]. cbn [scan] in H.
    destruct (match_here f r []) as [[rest g0]|] eqn:E; [|contradiction].
    destruct H as [<-|[]]. eauto.
  - destruct n; cbn [scan] in H; [|by apply IH in H].
    destruct (match_here f r (c :: s)) as [[rest g0]|] eqn:E.
    + destruct H as [<-|H]; [eauto | by apply IH in H].
    + by apply IH in H.
Qed.

End SuccessFacts.

(** ** The quiz pattern on well-formed blocks *)

Section QuizFacts.

Lemma marker_A : marker pf mk_A = true.
Proof. vm_compute. reflexivity. Qed.

Lemma marker_B : marker pf mk_B = true.
Proof. vm_compute. reflexivity. Qed.

Lemma marker_C : marker pf mk_C = true.
Proof. vm_compute. reflexivity. Qed.

Lemma marker_D : marker pf mk_D = true.
Proof. vm_compute. reflexivity. Qed.

Lemma answer_letter_cases c :
  answer_letter c = true ->
  In c [65; 66; 67; 68; 97; 98; 99; 100].
Proof.
  unfold answer_letter. rewrite existsb_exists.
  intros (x & Hx & E). apply N.eqb_eq in E. subst x. exact Hx.
Qed.

(** The characters that [[A-D]] matches under IGNORECASE. *)
Lemma range_AD_chars x :
  cls_match pf (CRange 65 4) x = true -> answer_letter x = true.
Proof.
  unfold cls_match, range_chars, existsb, lit_match, pf, pattern_flags, IGNORECASE.
  change (ascii_lower 65) with 97. change (ascii_lower (65 + 1)) with 98.
  change (ascii_lower (65 + 1 + 1)) with 99.
  change (ascii_lower (65 + 1 + 1 + 1)) with 100.
  change (ignorecase_fixes 97) with (@nil char).
  change (ignorecase_fixes 98) with (@nil char).
  change (ignorecase_fixes 99) with (@nil char).
  change (ignorecase_fixes 100) with (@nil char).
  rewrite !orb_false_r. intros H.
  assert (In (sre_lower x) [97; 98; 99; 100]) as Hl.
  { repeat (apply orb_prop in H as [H|H]); apply N.eqb_eq in H; rewrite H;
      simpl; tauto. }
  clear H. unfold answer_letter. apply existsb_exists.
  exists x. split; [|apply N.eqb_refl].
  unfold sre_lower in Hl.
  destruct (N.leb_spec 65 x); destruct (N.leb_spec x 90); simpl in Hl;
    try destruct (N.eqb_spec x 304); try destruct (N.eqb_spec x 8490);
    simpl in Hl; change (u "ABCDabcd") with [65; 66; 67; 68; 97; 98; 99; 100];
    simpl; lia.
Qed.

Lemma answer_letter_match x :
  answer_letter x = true -> cls_match pf (CRange 65 4) x = true.
Proof.
  intros H. apply answer_letter_cases in H. simpl in H.
  repeat (destruct H as [<-|H]; [reflexivity|]). contradiction.
Qed.

Lemma answer_letter_not_space x : answer_letter x = true -> is_space x = false.
Proof.
  intros H. apply answer_letter_cases in H. simpl in H.
  repeat (destruct H as [<-|H]; [reflexivity|]). contradiction.
Qed.

Lemma answer_letter_upper x :
  answer_letter x = true -> In (ascii_upper x) [65; 66; 67; 68].
Proof.
  intros H. apply answer_letter_cases in H. simpl in H.
  repeat (destruct H as [<-|H]; [simpl; tauto|]). contradiction.
Qed.

Lemma strip_single x : is_space x = false -> strip [x] = [x].
Proof. intros H. unfold strip, rstrip. simpl. rewrite H. simpl. by rewrite H. Qed.

End QuizFacts.

Section QuizBlockFacts.

Lemma well_formed_quiz_block_spec b :
  well_formed_quiz_block b = true ->
  (blank (qb_question b) = false /\ occurs pf mk_A (qb_question b) = false)
  /\ (blank (qb_A b) = false /\ occurs pf mk_B (qb_A b) = false)
  /\ (blank (qb_B b) = false /\ occurs pf mk_C (qb_B b) = false)
  /\ (blank (qb_C b) = false /\ occurs pf mk_D (qb_C b) = false)
  /\ (blank (qb_D b) = false /\ occurs pf mk_answer (qb_D b) = false)
  /\ blank (qb_gap b) = true /\ answer_letter (qb_letter b) = true.
Proof.
  unfold well_formed_quiz_block. intros H.
  repeat (apply andb_prop in H as [H ?]).
  repeat split; try assumption; by apply negb_true_iff.
Qed.

(** The pattern matches a well-formed block, whatever follows it, and
    stops behind the answer letter. *)
Lemma quiz_match_block b t :
  well_formed_quiz_block b = true ->
  match_here pf quiz_pattern (render_quiz_block b ++ t) = Some (t, quiz_groups b).
Proof.
  intros Hwf.
  apply well_formed_quiz_block_spec in Hwf
    as ([Hq Hoq] & [Ha Hoa] & [Hb Hob] & [Hc Hoc] & [Hd Hod] & Hgap & Hl).
  unfold match_here, quiz_pattern, render_quiz_block.
  rewrite <- !app_assoc.
  rewrite rmatch_cat_cons.
  rewrite (rmatch_lits_ok pf mk_question) by (apply marker_self, marker_question).
  rewrite drop_app_length.
  apply (rmatch_field_lits pf pf_dotall 1 mk_A _ [] (qb_question b));
    [apply marker_A | reflexivity | assumption | assumption |].
  apply (rmatch_field_lits pf pf_dotall 2 mk_B _ [] (qb_A b));
    [apply marker_B | reflexivity | assumption | assumption |].
  apply (rmatch_field_lits pf pf_dotall 3 mk_C _ [] (qb_B b));
    [apply marker_C | reflexivity | assumption | assumption |].
  apply (rmatch_field_lits pf pf_dotall 4 mk_D _ [] (qb_C b));
    [apply marker_D | reflexivity | assumption | assumption |].
  apply (rmatch_field_lits pf pf_dotall 5 mk_answer _ [] (qb_D b));
    [apply marker_answer | reflexivity | assumption | assumption |].
  rewrite rmatch_cat_cons. cbn [rmatch].
  apply greedy_lstrip.
  rewrite lstrip_app_blank by exact Hgap.
  cbn [app lstrip]. rewrite (answer_letter_not_space _ Hl).
  rewrite rmatch_cat_cons. cbn [rmatch].
  rewrite (answer_letter_match _ Hl).
  rewrite rmatch_cat_nil. unfold quiz_groups.
  replace (length (qb_letter b :: t) - length t)%nat with 1%nat by (simpl; lia).
  reflexivity.
Qed.

Lemma render_quiz_block_nonempty b : render_quiz_block b <> [].
Proof. discriminate. Qed.

Lemma quiz_matches_block b t :
  well_formed_quiz_block b = true ->
  quiz_matches (render_quiz_block b ++ t) = quiz_groups b :: quiz_matches t.
Proof.
  intros Hwf. unfold quiz_matches. apply findall_match.
  - apply render_quiz_block_nonempty.
  - by apply quiz_match_block.
Qed.

Lemma quiz_no_match_at_newline s : match_here pf quiz_pattern (NL :: s) = None.
Proof.
  unfold match_here, quiz_pattern. rewrite rmatch_cat_cons.
  by apply rmatch_lits_fail.
Qed.

Lemma render_quiz_blocks_cons b bs tail :
  render_quiz_blocks (b :: bs) ++ tail
  = render_quiz_block b ++ NL :: NL :: (render_quiz_blocks bs ++ tail).
Proof.
  unfold render_quiz_blocks. cbn [map concat]. by rewrite <- !app_assoc.
Qed.

(** The matches in a text that begins with well-formed blocks: one for
    each block, then those of the rest of the text. *)
Lemma quiz_matches_blocks bs tail :
  forallb well_formed_quiz_block bs = true ->
  quiz_matches (render_quiz_blocks bs ++ tail)
  = map quiz_groups bs ++ quiz_matches tail.
Proof.
  induction bs as [|b bs IH]; intros H; [reflexivity|].
  simpl in H. apply andb_prop in H as [Hb Hbs].
  rewrite render_quiz_blocks_cons.
  rewrite quiz_matches_block by exact Hb.
  cbn [map app]. f_equal.
  unfold quiz_matches at 1.
  rewrite !findall_nomatch by apply quiz_no_match_at_newline.
  apply (IH Hbs).
Qed.

(** The pattern matches nowhere in a text without a [C)] line. *)
Lemma quiz_matches_without_C s :
  occurs pf mk_C s = false -> quiz_matches s = [].
Proof.
  intros H. unfold quiz_matches. apply findall_none.
  intros s' Hs. unfold match_here.
  change quiz_pattern with
    (cat ([ lits (u "Question:"); StarG CSpace; Group 1 (StarL CAny);
            lits (NL :: u "A)"); StarG CSpace; Group 2 (StarL CAny);
            lits (NL :: u "B)"); StarG CSpace; Group 3 (StarL CAny) ]
          ++ lits mk_C
          :: [ StarG CSpace; Group 4 (StarL CAny);
               lits (NL :: u "D)"); StarG CSpace; Group 5 (StarL CAny);
               lits (NL :: u "Answer:"); StarG CSpace; Group 6 (Chr (CRange 65 4)) ])).
  apply rmatch_cat_requires. by apply (occurs_suffix pf mk_C s).
Qed.

Lemma quiz_item_groups b :
  well_formed_quiz_block b = true ->
  quiz_item (quiz_groups b) = quiz_item_of_block b.
Proof.
  intros Hwf. apply well_formed_quiz_block_spec in Hwf as (_ & _ & _ & _ & _ & _ & Hl).
  unfold quiz_item, quiz_groups, quiz_item_of_block. cbn [group Nat.eqb].
  rewrite !strip_lstrip.
  rewrite strip_single by (by apply answer_letter_not_space).
  reflexivity.
Qed.

(** In every match of the quiz pattern the sixth group is one of the
    letters A to D, in either case. *)
Lemma quiz_match_letter s rest g :
  match_here pf quiz_pattern s = Some (rest, g) ->
  exists x, group 6 g = [x] /\ answer_letter x = true.
Proof.
  unfold match_here. intros H.
  change quiz_pattern with
    (cat ([ lits (u "Question:"); StarG CSpace; Group 1 (StarL CAny);
            lits (NL :: u "A)"); StarG CSpace; Group 2 (StarL CAny);
            lits (NL :: u "B)"); StarG CSpace; Group 3 (StarL CAny);
            lits (NL :: u "C)"); StarG CSpace; Group 4 (StarL CAny);
            lits (NL :: u "D)"); StarG CSpace; Group 5 (StarL CAny);
            lits (NL :: u "Answer:"); StarG CSpace ]
          ++ [Group 6 (Chr (CRange 65 4))])) in H.
  apply rmatch_last_group in H as (x & g' & Hg & Hx). simpl in Hg. subst g.
  exists x. split; [reflexivity | by apply range_AD_chars].
Qed.

End QuizBlockFacts.

(** ** The extractors on texts in the expected layout *)

Section ExtractorFacts.

Lemma lstrip_rstrip_fixed (y : str) : lstrip y = y -> lstrip (rstrip y) = rstrip y.
Proof.
  destruct y as [|c y]; [reflexivity|]. simpl.
  destruct (is_space c) eqn:E.
  - intros H. pose proof (lstrip_suffix y) as Hs. rewrite H in Hs.
    apply suffix_length in Hs. simpl in Hs. lia.
  - intros _. unfold rstrip. simpl rev.
    assert (lstrip (rev y ++ [c]) = lstrip (rev y) ++ [c]) as ->.
    { destruct (blank (rev y)) eqn:Eb.
      - rewrite lstrip_app_blank, (lstrip_blank _ Eb) by exact Eb.
        simpl. by rewrite E.
      - by apply lstrip_app_nonblank. }
    rewrite rev_app_distr. simpl. by rewrite E.
Qed.

Lemma strip_trimmed (x : str) : trimmed (strip x).
Proof.
  unfold trimmed, strip.
  rewrite (lstrip_rstrip_fixed (lstrip x)) by apply lstrip_idemp.
  unfold rstrip. by rewrite rev_involutive, lstrip_idemp.
Qed.

Lemma flashcard_of_groups b :
  (strip (group 1 (flashcard_groups b)), strip (group 2 (flashcard_groups b)))
  = flashcard_of_block b.
Proof.
  unfold flashcard_groups, flashcard_of_block. cbn [group Nat.eqb].
  by rewrite !strip_lstrip.
Qed.

(** The flashcards of a text made of well-formed blocks. *)
Lemma extractFlashcards_blocks bs :
  bs <> [] ->
  forallb well_formed_flashcard_block bs = true ->
  extractFlashcards (render_flashcard_blocks bs) = Items (map flashcard_of_block bs).
Proof.
  intros Hne Hwf. unfold extractFlashcards.
  rewrite (flashcard_matches_blocks bs Hwf), map_map.
  rewrite (map_ext _ flashcard_of_block) by apply flashcard_of_groups.
  destruct bs; [done | reflexivity].
Qed.

Lemma flashcard_of_block_ok b :
  well_formed_flashcard_block b = true ->
  (flashcard_of_block b).1 <> [] /\ (flashcard_of_block b).2 <> []
  /\ trimmed (flashcard_of_block b).1 /\ trimmed (flashcard_of_block b).2.
Proof.
  intros H. apply well_formed_flashcard_block_spec in H as (Hq & Ha & _ & _).
  unfold flashcard_of_block. simpl.
  repeat split; auto using strip_nonblank, strip_trimmed.
Qed.

Lemma occurs_after_space c p x :
  lit_match pf c 32 = false -> occurs pf (c :: p) (32 :: x) = occurs pf (c :: p) x.
Proof. intros H. cbn [occurs prefix_ci]. by rewrite H. Qed.

Lemma plain_flashcard_block c :
  plain_flashcard c = true -> well_formed_flashcard_block (block_of_flashcard c) = true.
Proof.
  unfold plain_flashcard, well_formed_flashcard_block, block_of_flashcard.
  cbn [fb_question fb_answer]. unfold mk_answer, mk_next.
  rewrite !occurs_after_space by reflexivity.
  trivial.
Qed.

Lemma render_flashcards_blocks cards :
  render_flashcards cards = render_flashcard_blocks (map block_of_flashcard cards).
Proof.
  unfold render_flashcards, render_flashcard_blocks. rewrite map_map.
  reflexivity.
Qed.

Lemma flashcard_of_block_of_flashcard c :
  flashcard_of_block (block_of_flashcard c) = trim_flashcard c.
Proof. reflexivity. Qed.

(** Without matches an extractor tells a blank text from one it could
    not parse. *)
Lemma extractFlashcards_no_match text :
  flashcard_matches text = [] ->
  extractFlashcards text
  = if blank text
    then Message (py "The model did not generate any flashcards or the response was empty.")
    else Message (py "Could not parse flashcards from the response. Raw response:\n" ++ text).
Proof.
  intros H. unfold extractFlashcards. rewrite H. cbn [map].
  rewrite truthy_strip. by destruct (blank text).
Qed.

Lemma extractQuiz_no_match text :
  quiz_matches text = [] ->
  extractQuiz text
  = if blank text
    then Message (py "The model did not generate any quiz questions or the response was empty.")
    else Message (py "Could not parse quiz questions from the response. Raw response:\n" ++ text).
Proof.
  intros H. unfold extractQuiz. rewrite H. cbn [map].
  rewrite truthy_strip. by destruct (blank text).
Qed.

(** The pattern matches nowhere in a text in which no newline is followed
    by [Answer:]. *)
Lemma flashcard_matches_without_answer_line s :
  occurs pf mk_answer s = false -> flashcard_matches s = [].
Proof.
  intros H. unfold flashcard_matches. apply findall_none.
  intros s' Hs. unfold match_here.
  change flashcard_pattern with
    (cat ([ lits (u "Question:"); StarG CSpace; Group 1 (StarL CAny) ]
          ++ lits mk_answer
          :: [ StarG CSpace; Group 2 (StarL CAny);
               Look (Alt (lits (NL :: NL :: u "Question:")) EndZ) ])).
  apply rmatch_cat_requires. by apply (occurs_suffix pf mk_answer s).
Qed.

End ExtractorFacts.


Section QuizItemFacts.

(** The item made of a match whose sixth group is an answer letter. *)
Lemma quiz_item_ok_letter m x :
  group 6 m = [x] -> answer_letter x = true -> quiz_item_ok (quiz_item m).
Proof.
  intros Hg Hl. unfold quiz_item_ok, quiz_item. cbn [options answer].
  rewrite Hg, strip_single by (by apply answer_letter_not_space).
  rewrite !dom_insert_L, dom_empty_L.
  apply answer_letter_upper in Hl. cbn [upper map].
  split; [set_solver|].
  simpl in Hl. destruct Hl as [<-|[<-|[<-|[<-|[]]]]];
    (split; [set_solver | reflexivity]).
Qed.

End QuizItemFacts.
(** ** Blank texts *)

Section BlankFacts.

Lemma space_not_Q c : is_space c = true -> lit_match pf 81 c = false.
Proof.
  intros H. unfold lit_match, pf, pattern_flags, IGNORECASE.
  change (ascii_lower 81) with 113. change (ignorecase_fixes 113) with (@nil char).
  cbn [existsb]. rewrite orb_false_r. apply N.eqb_neq.
  unfold is_space in H.
  rewrite !orb_true_iff, !andb_true_iff, !N.leb_le, !N.eqb_eq in H.
  unfold sre_lower.
  destruct (N.leb_spec 65 c); destruct (N.leb_spec c 90); cbn [andb];
    try destruct (N.eqb_spec c 304); try destruct (N.eqb_spec c 8490); lia.
Qed.

Lemma blank_without_question s :
  blank s = true -> occurs pf mk_question s = false.
Proof.
  induction s as [|c s IH]; [reflexivity|].
  simpl blank. intros H. apply andb_prop in H as [Hc Hs].
  cbn [occurs]. rewrite (IH Hs), orb_false_r.
  unfold mk_question. change (u "Question:") with (81 :: u "uestion:").
  cbn [prefix_ci]. by rewrite (space_not_Q c Hc).
Qed.

(** Neither pattern matches in a blank text, which is therefore answered
    by the "did not generate any" message. *)
Lemma extract_blank text :
  blank text = true ->
  extractFlashcards text
  = Message (py "The model did not generate any flashcards or the response was empty.")
  /\ extractQuiz text
     = Message (py "The model did not generate any quiz questions or the response was empty.").
Proof.
  intros Hb. pose proof (blank_without_question text Hb) as Ho. split.
  - rewrite extractFlashcards_no_match, Hb; [reflexivity|].
    unfold flashcard_matches. apply findall_none. intros s' Hs.
    apply (rmatch_cat_requires pf [] mk_question). by apply (occurs_suffix pf _ text).
  - rewrite extractQuiz_no_match, Hb; [reflexivity|].
    unfold quiz_matches. apply findall_none. intros s' Hs.
    apply (rmatch_cat_requires pf [] mk_question). by apply (occurs_suffix pf _ text).
Qed.

End BlankFacts.

(** ** The sample texts, as literals *)

Section SampleFacts.

Lemma sample_flashcards_text_rendered :
  render_flashcards sample_flashcards = sample_flashcards_text.
Proof. vm_compute. reflexivity. Qed.

Lemma two_line_flashcard_rendered :
  render_flashcards [two_line_flashcard]
  = py "Question: Which line follows?\nAnswer: none\nAnswer: The second one".
Proof. vm_compute. reflexivity. Qed.

Lemma merged_quiz_text_literal :
  merged_quiz_text
  = py "Question: Largest planet?\nA) Mars\nB) Jupiter\nD) Earth\nAnswer: B\n\nQuestion: Smallest prime?\nA) 0\nB) 1\nC) 2\nD) 3\nAnswer: c".
Proof. vm_compute. reflexivity. Qed.

(** The other order: the block without [C)] comes last and is left out. *)
Lemma well_formed_then_malformed :
  extractQuiz (py "Question: Smallest prime?\nA) 0\nB) 1\nC) 2\nD) 3\nAnswer: c\n\nQuestion: Largest planet?\nA) Mars\nB) Jupiter\nD) Earth\nAnswer: B")
  = Items [quiz_item_of_block sample_quiz_block_2].
Proof. vm_compute. reflexivity. Qed.

(** A flashcard with an empty answer takes the next block for its
    answer. *)
Lemma empty_answer_swallows_next :
  extractFlashcards (render_flashcards [(u "First?", []); (u "Second?", u "Two")])
  = Items [(u "First?", py "Question: Second?\nAnswer: Two")].
Proof. vm_compute. reflexivity. Qed.

End SampleFacts.

(** ** The result of the gateway *)

Section GatewayFacts.

Lemma gateway_pair model prompt w :
  generate_with_gemini model prompt w
  = ((generate_with_gemini model prompt w).1, w ++ [prompt]).
Proof. reflexivity. Qed.

End GatewayFacts.

(** ** The properties of the specification *)

(** C1.  A text made of N well-formed flashcard blocks ([Question:], the
    question, a newline, [Answer:], the answer) separated by blank lines
    yields exactly N flashcards, in the order of the blocks, each the
    trimmed, non-empty question and answer of its block; and the example
    text of the specification yields its two pairs. *)
Theorem C1_flashcard_blocks_extracted (bs : list FlashcardBlock) :
  bs <> [] ->
  forallb well_formed_flashcard_block bs = true ->
  extractFlashcards (render_flashcard_blocks bs) = Items (map flashcard_of_block bs)
  /\ length (map flashcard_of_block bs) = length bs
  /\ Forall (fun c => c.1 <> [] /\ c.2 <> [] /\ trimmed c.1 /\ trimmed c.2)
       (map flashcard_of_block bs)
  /\ extractFlashcards sample_flashcards_text = Items sample_flashcards.
Proof.
  intros Hne Hwf. split; [by apply extractFlashcards_blocks|].
  split; [apply length_map|]. split; [|by vm_compute].
  apply Forall_forall. intros c Hc.
  apply list_elem_of_In, in_map_iff in Hc as (b & <- & Hb).
  apply flashcard_of_block_ok.
  rewrite forallb_forall in Hwf. auto.
Qed.

Lemma C1_witness :
  extractFlashcards (render_flashcard_blocks sample_flashcard_blocks)
  = Items (map flashcard_of_block sample_flashcard_blocks)
  /\ length (map flashcard_of_block sample_flashcard_blocks)
     = length sample_flashcard_blocks
  /\ Forall (fun c => c.1 <> [] /\ c.2 <> [] /\ trimmed c.1 /\ trimmed c.2)
       (map flashcard_of_block sample_flashcard_blocks)
  /\ extractFlashcards sample_flashcards_text = Items sample_flashcards.
Proof.
  apply (C1_flashcard_blocks_extracted sample_flashcard_blocks);
    [discriminate | vm_compute; reflexivity].
Defined.




(** C3.  When the pattern finds no match, the flashcard extractor and the
    quiz extractor each return the fixed "did not generate any" message
    for a text that is empty or white space only, and the "could not
    parse" message followed by the text itself for a text with a visible
    character. *)
Theorem C3_no_match_empty_or_unparsed (text : str) :
  (flashcard_matches text = [] ->
   extractFlashcards text
   = if blank text
     then Message (py "The model did not generate any flashcards or the response was empty.")
     else Message (py "Could not parse flashcards from the response. Raw response:\n"
                   ++ text))
  /\ (quiz_matches text = [] ->
      extractQuiz text
      = if blank text
        then Message (py "The model did not generate any quiz questions or the response was empty.")
        else Message (py "Could not parse quiz questions from the response. Raw response:\n"
                      ++ text)).
Proof.
  split; [apply extractFlashcards_no_match | apply extractQuiz_no_match].
Qed.

Lemma C3_witness :
  (extractFlashcards (py " \n ")
   = Message (py "The model did not generate any flashcards or the response was empty.")
   /\ extractQuiz (py " \n ")
      = Message (py "The model did not generate any quiz questions or the response was empty."))
  /\ (extractFlashcards (py "no cards today")
      = Message (py "Could not parse flashcards from the response. Raw response:\nno cards today")
      /\ extractQuiz (py "no cards today")
         = Message (py "Could not parse quiz questions from the response. Raw response:\nno cards today")).
Proof.
  split.
  - destruct (C3_no_match_empty_or_unparsed (py " \n ")) as [Hf Hq].
    split; (etrans; [apply Hf || apply Hq|]); vm_compute; reflexivity.
  - destruct (C3_no_match_empty_or_unparsed (py "no cards today")) as [Hf Hq].
    split; (etrans; [apply Hf || apply Hq|]); vm_compute; reflexivity.
Defined.

(** C4.  Every quiz item that [extractQuiz] returns has exactly the
    option keys A, B, C and D, and its answer is one of these keys, in
    upper case; and a well-formed block whose answer line reads
    [Answer: B] gives one item whose answer is [B]. *)
Theorem C4_quiz_item_invariant (text : str) (items : list QuizItem) :
  extractQuiz text = Items items ->
  Forall quiz_item_ok items
  /\ (forall b, well_formed_quiz_block b = true -> qb_letter b = 66 ->
        extractQuiz (render_quiz_block b) = Items [quiz_item_of_block b]
        /\ answer (quiz_item_of_block b) = u "B").
Proof.
  intros H. split.
  - unfold extractQuiz in H.
    destruct (map quiz_item (quiz_matches text)) as [|it its] eqn:E.
    { destruct (truthy (strip text)); discriminate. }
    inversion H; subst items. rewrite <- E.
    apply Forall_forall. intros it' Hit.
    apply list_elem_of_In, in_map_iff in Hit as (m & <- & Hm).
    apply scan_elem in Hm as (s' & rest & Hm).
    apply quiz_match_letter in Hm as (x & Hx & Hl).
    by apply quiz_item_ok_letter with x.
  - intros b Hwf Hb. split.
    + rewrite <- (app_nil_r (render_quiz_block b)). unfold extractQuiz.
      rewrite (quiz_matches_block b [] Hwf).
      change (quiz_matches []) with (@nil caps). cbn [map].
      by rewrite (quiz_item_groups b Hwf).
    + unfold quiz_item_of_block. cbn [answer]. by rewrite Hb.
Qed.

Lemma C4_witness :
  Forall quiz_item_ok [quiz_item_of_block sample_quiz_block_1]
  /\ (forall b, well_formed_quiz_block b = true -> qb_letter b = 66 ->
        extractQuiz (render_quiz_block b) = Items [quiz_item_of_block b]
        /\ answer (quiz_item_of_block b) = u "B").
Proof.
  apply (C4_quiz_item_invariant (render_quiz_block sample_quiz_block_1)
           [quiz_item_of_block sample_quiz_block_1]).
  vm_compute. reflexivity.
Defined.

(** C5 as stated fails: the flashcard whose question goes on with a line
    [Answer: none] is rendered in the expected layout, and the extractor
    returns another pair for it, cut at that line. *)
Lemma C5_counterexample :
  extractFlashcards (render_flashcards [two_line_flashcard])
  = Items [(py "Which line follows?", py "none\nAnswer: The second one")]
  /\ extractFlashcards (render_flashcards [two_line_flashcard])
     <> Items (map trim_flashcard [two_line_flashcard]).
Proof.
  split; [by vm_compute|].
  intros H. vm_compute in H. discriminate.
Qed.

(** C5, amended.  For a sequence of at least one flashcard in which every
    question and every answer has a visible character, no question has a
    line that begins with [Answer:] and no answer has a blank line
    followed by [Question:], extracting from the rendered text gives back
    the flashcards in order, each trimmed. *)
Theorem C5_round_trip (cards : list (str * str)) :
  cards <> [] ->
  forallb plain_flashcard cards = true ->
  extractFlashcards (render_flashcards cards) = Items (map trim_flashcard cards).
Proof.
  intros Hne Hp. rewrite render_flashcards_blocks, extractFlashcards_blocks.
  - rewrite map_map. f_equal.
  - by destruct cards.
  - rewrite forallb_forall in *. intros b Hb. apply in_map_iff in Hb as (c & <- & Hc).
    apply plain_flashcard_block. auto.
Qed.

Lemma C5_witness :
  extractFlashcards (render_flashcards sample_flashcards)
  = Items (map trim_flashcard sample_flashcards).
Proof.
  apply (C5_round_trip sample_flashcards); [discriminate | vm_compute; reflexivity].
Defined.

(** C6.  What the gateway makes of a response of the service.  With
    content, the result is the text of the response.  Without content,
    that is with one candidate that has no parts, it is the "blocked"
    message when a block reason is present, and otherwise the "stopped"
    message with the name of the finish reason, whatever that reason is:
    the comparison of the finish reason with ['STOP'] never fails, so a
    candidate that finished normally is reported as stopped and the
    "empty response" message is never returned.  A response with no
    candidate, as for a blocked prompt, makes [response.parts] raise, and
    the result is the "error occurred" message, not the "blocked" one.
    All these messages reach the caller of [generate_flashcards] and
    [generate_quiz] as a message, not as parsed items. *)
Theorem C6_gateway_outcomes (model : Service) (prompt : str) (w : World)
    (r : Response) :
  model w prompt safety_settings = Return r ->
  (forall ps t, parts r = Return ps -> ps <> [] -> text r = Return t ->
     (generate_with_gemini model prompt w).1 = t)
  /\ (forall b, parts r = Return [] -> block_reason_of r = Some b ->
        (generate_with_gemini model prompt w).1
        = py "Content generation blocked. Reason: " ++ block_reason_name b)
  /\ (forall c, parts r = Return [] -> block_reason_of r = None ->
        candidates r = [c] ->
        (generate_with_gemini model prompt w).1
        = py "Content generation stopped. Reason: "
          ++ finish_reason_name (finish_reason c))
  /\ (forall e, parts r = Raise e ->
        (generate_with_gemini model prompt w).1
        = py "An error occurred during generation: " ++ exc_str e)
  /\ (parts r = Return [] \/ (exists e, parts r = Raise e) ->
      (generate_with_gemini model prompt w).1
      <> py "Error: Received an empty response from the API.")
  /\ (forall study_material,
        parts r = Return [] \/ (exists e, parts r = Raise e) ->
        truthy study_material = true ->
        (prompt = flashcards_prompt study_material ->
         generate_flashcards model study_material w
         = (Message (generate_with_gemini model prompt w).1, w ++ [prompt]))
        /\ (prompt = quiz_prompt study_material ->
            generate_quiz model study_material w
            = (Message (generate_with_gemini model prompt w).1, w ++ [prompt])))
  /\ (generate_with_gemini
        (constant_service (Return (empty_candidate_response None (u "STOP"))))
        (u "prompt") []).1
     = py "Content generation stopped. Reason: STOP"
  /\ (generate_with_gemini
        (constant_service (Return (blocked_response (u "SAFETY"))))
        (u "prompt") []).1
     = py "An error occurred during generation: " ++ exc_str sample_accessor_error.
Proof.
  intros Hr.
  assert (generate_with_gemini model prompt w
          = (match classify (Return r) with
             | Return s => s
             | Raise e => error_message e
             end, w ++ [prompt])) as Hg
    by (unfold generate_with_gemini; by rewrite Hr).
  assert (parts r = Return [] -> exists c, candidates r = [c]) as Hone.
  { unfold parts. destruct (candidates r) as [|c [|c' cs]]; [done | eauto | done]. }
  assert (forall c, parts r = Return [] -> block_reason_of r = None ->
            candidates r = [c] ->
            (generate_with_gemini model prompt w).1
            = py "Content generation stopped. Reason: "
              ++ finish_reason_name (finish_reason c)) as Hstopped.
  { intros c Hp Hb Hc. rewrite Hg. unfold classify, bind, stopped_message.
    rewrite Hp, Hb, Hc. reflexivity. }
  assert (forall b, parts r = Return [] -> block_reason_of r = Some b ->
            (generate_with_gemini model prompt w).1
            = py "Content generation blocked. Reason: " ++ block_reason_name b)
    as Hblocked.
  { intros b Hp Hb. rewrite Hg. unfold classify, bind, blocked_message.
    rewrite Hp, Hb. reflexivity. }
  assert (forall e, parts r = Raise e ->
            (generate_with_gemini model prompt w).1
            = py "An error occurred during generation: " ++ exc_str e) as Herror.
  { intros e Hp. rewrite Hg. unfold classify, bind, error_message.
    rewrite Hp. reflexivity. }
  assert (parts r = Return [] \/ (exists e, parts r = Raise e) ->
          is_failure (generate_with_gemini model prompt w).1 = true
          /\ (generate_with_gemini model prompt w).1
             <> py "Error: Received an empty response from the API.") as Hfail.
  { intros [Hp | [e Hp]].
    - destruct (Hone Hp) as [c Hc]. destruct (block_reason_of r) as [b|] eqn:Hb.
      + rewrite (Hblocked b Hp eq_refl). split; [vm_compute; reflexivity|].
        intros H. apply (f_equal (take 1)) in H. vm_compute in H. discriminate.
      + rewrite (Hstopped c Hp eq_refl Hc). split; [vm_compute; reflexivity|].
        intros H. apply (f_equal (take 1)) in H. vm_compute in H. discriminate.
    - rewrite (Herror e Hp). split; [vm_compute; reflexivity|].
      intros H. apply (f_equal (take 1)) in H. vm_compute in H. discriminate. }
  split; [|split; [|split; [|split; [|split; [|split; [|split]]]]]].
  - intros ps t Hp Hne Ht. rewrite Hg. unfold classify, bind. rewrite Hp.
    destruct ps; [done|]. rewrite Ht. reflexivity.
  - exact Hblocked.
  - exact Hstopped.
  - exact Herror.
  - intros Hp. apply Hfail in Hp as [_ Hp]. exact Hp.
  - intros study_material Hp Hm. apply Hfail in Hp as [Hf _].
    split; intros ->.
    + unfold generate_flashcards. rewrite Hm. cbn [negb].
      rewrite gateway_pair. rewrite Hf. reflexivity.
    + unfold generate_quiz. rewrite Hm. cbn [negb].
      rewrite gateway_pair. rewrite Hf. reflexivity.
  - vm_compute. reflexivity.
  - vm_compute. reflexivity.
Qed.

Lemma C6_witness :
  (generate_with_gemini
     (constant_service (Return (empty_candidate_response None (u "STOP"))))
     (flashcards_prompt (u "notes")) []).1
  = py "Content generation stopped. Reason: "
    ++ finish_reason_name {| finish_reason_name := u "STOP" |}.
Proof.
  destruct (C6_gateway_outcomes
              (constant_service (Return (empty_candidate_response None (u "STOP"))))
              (flashcards_prompt (u "notes")) []
              (empty_candidate_response None (u "STOP")) eq_refl)
    as (_ & _ & H & _).
  apply (H {| finish_reason := {| finish_reason_name := u "STOP" |};
              content_parts := [] |}); reflexivity.
Defined.

(** C7.  Whatever exception the call of the service or the reading of the
    response text raises, [generate_with_gemini] returns a string: the
    words "An error occurred during generation: " followed by the message
    of the exception as it is. *)
Theorem C7_exception_message (model : Service) (prompt : str) (w : World)
    (e : Exception) :
  model w prompt safety_settings = Raise e
  \/ (exists r, model w prompt safety_settings = Return r
                /\ (parts r = Raise e
                    \/ (exists ps, parts r = Return ps /\ ps <> []
                                   /\ text r = Raise e))) ->
  generate_with_gemini model prompt w
  = (py "An error occurred during generation: " ++ exc_str e, w ++ [prompt]).
Proof.
  intros [H | (r & H & [Hp | (ps & Hp & Hne & Ht)])];
    unfold generate_with_gemini, classify, bind; rewrite H; [reflexivity|..];
    rewrite Hp; [reflexivity|].
  destruct ps; [done|]. by rewrite Ht.
Qed.

Lemma C7_witness :
  generate_with_gemini
    (constant_service (Raise {| exc_str := u "503 Service Unavailable" |}))
    (u "prompt") []
  = (py "An error occurred during generation: "
     ++ exc_str {| exc_str := u "503 Service Unavailable" |},
     [] ++ [u "prompt"]).
Proof.
  apply (C7_exception_message
           (constant_service (Raise {| exc_str := u "503 Service Unavailable" |}))
           (u "prompt") [] {| exc_str := u "503 Service Unavailable" |}).
  left. reflexivity.
Defined.

(** C8.  With empty study material, the four helpers return their fixed
    message and send nothing to the service; so does [generate_answer]
    with an empty question. *)
Theorem C8_preflight_validation (model : Service) (w : World)
    (context question : str) :
  generate_summary model [] w = (py "Please provide some text to summarize.", w)
  /\ generate_flashcards model [] w
     = (Message (py "Please provide some text to generate flashcards from."), w)
  /\ generate_quiz model [] w
     = (Message (py "Please provide some text to generate a quiz from."), w)
  /\ generate_answer model [] question w
     = (py "Please provide study material first.", w)
  /\ (context <> [] ->
      generate_answer model context [] w = (py "Please enter a question.", w)).
Proof.
  repeat split. intros H. destruct context; [done | reflexivity].
Qed.

Lemma C8_witness :
  generate_answer (constant_service (Return (text_response (u "42"))))
    (u "notes") [] []
  = (py "Please enter a question.", []).
Proof.
  destruct (C8_preflight_validation
              (constant_service (Return (text_response (u "42")))) []
              (u "notes") [])
    as (_ & _ & _ & _ & H).
  apply H. discriminate.
Defined.

(** C9.  When the text that the gateway returns begins with
    "An error occurred", "Content generation" or "Error:",
    [generate_flashcards] and [generate_quiz] return that text as it is,
    whatever follows the prefix. *)
Theorem C9_failure_prefix_returned (model : Service) (study_material : str)
    (w : World) (t : str) :
  truthy study_material = true ->
  startswith t (py "An error occurred") = true
  \/ startswith t (py "Content generation") = true
  \/ startswith t (py "Error:") = true ->
  ((generate_with_gemini model (flashcards_prompt study_material) w).1 = t ->
   generate_flashcards model study_material w
   = (Message t, w ++ [flashcards_prompt study_material]))
  /\ ((generate_with_gemini model (quiz_prompt study_material) w).1 = t ->
      generate_quiz model study_material w
      = (Message t, w ++ [quiz_prompt study_material])).
Proof.
  intros Hm Ht.
  assert (is_failure t = true) as Hf.
  { unfold is_failure. destruct Ht as [-> | [-> | ->]];
      by rewrite ?orb_true_r. }
  split; intros <-.
  - unfold generate_flashcards. rewrite Hm. cbn [negb].
    destruct (generate_with_gemini _ _ _) as [t w'] eqn:E.
    cbn [fst] in *. rewrite Hf.
    unfold generate_with_gemini in E. by inversion E.
  - unfold generate_quiz. rewrite Hm. cbn [negb].
    destruct (generate_with_gemini _ _ _) as [t w'] eqn:E.
    cbn [fst] in *. rewrite Hf.
    unfold generate_with_gemini in E. by inversion E.
Qed.

Lemma C9_witness :
  generate_flashcards (constant_service (Return (text_response error_like_text)))
    (u "notes") []
  = (Message error_like_text, [] ++ [flashcards_prompt (u "notes")])
  /\ extractFlashcards error_like_text = Items [(u "What is 2+2?", u "4")].
Proof.
  split; [|vm_compute; reflexivity].
  destruct (C9_failure_prefix_returned
              (constant_service (Return (text_response error_like_text)))
              (u "notes") [] error_like_text) as [H _].
  - reflexivity.
  - right. right. vm_compute. reflexivity.
  - apply H. reflexivity.
Defined.

(** C10.  The flashcard pattern needs a newline right before [Answer:]:
    in a text with a visible character in which no newline is followed by
    [Answer:] it finds no match, and the extractor returns the "could not
    parse" message with the text; so it does for
    [Question: Q Answer: A]. *)
Theorem C10_answer_needs_newline (text : str) :
  blank text = false ->
  occurs pf mk_answer text = false ->
  flashcard_matches text = []
  /\ extractFlashcards text
     = Message (py "Could not parse flashcards from the response. Raw response:\n" ++ text)
  /\ extractFlashcards (py "Question: Q Answer: A")
     = Message (py "Could not parse flashcards from the response. Raw response:\nQuestion: Q Answer: A").
Proof.
  intros Hb Ho.
  pose proof (flashcard_matches_without_answer_line text Ho) as Hm.
  split; [exact Hm|]. split; [|by vm_compute].
  rewrite (extractFlashcards_no_match text Hm), Hb. reflexivity.
Qed.

Lemma C10_witness :
  flashcard_matches (py "Question: Q Answer: A") = []
  /\ extractFlashcards (py "Question: Q Answer: A")
     = Message (py "Could not parse flashcards from the response. Raw response:\n"
                ++ py "Question: Q Answer: A")
  /\ extractFlashcards (py "Question: Q Answer: A")
     = Message (py "Could not parse flashcards from the response. Raw response:\nQuestion: Q Answer: A").
Proof.
  apply (C10_answer_needs_newline (py "Question: Q Answer: A"));
    vm_compute; reflexivity.
Defined.

(** ** Substrings *)

Section SubstringFacts.

Lemma substring_nil t : substring [] t.
Proof. by exists [], t. Qed.

Lemma substring_suffix x t : suffix x t -> substring x t.
Proof. intros [a ->]. exists a, []. by rewrite app_nil_r. Qed.

Lemma substring_prefix x t : prefix x t -> substring x t.
Proof. intros [b ->]. by exists [], b. Qed.

Lemma substring_trans x y t : substring x y -> substring y t -> substring x t.
Proof.
  intros (a & b & ->) (c & d & ->). exists (c ++ a), (b ++ d).
  by rewrite <- !app_assoc.
Qed.

Lemma rstrip_prefix x : prefix (rstrip x) x.
Proof.
  unfold rstrip. destruct (lstrip_suffix (rev x)) as [k Hk].
  exists (rev k). rewrite <- rev_app_distr, <- Hk. by rewrite rev_involutive.
Qed.

(** What [strip] returns is a piece of its argument. *)
Lemma strip_substring x : substring (strip x) x.
Proof.
  unfold strip. apply substring_trans with (lstrip x).
  - apply substring_prefix, rstrip_prefix.
  - apply substring_suffix, lstrip_suffix.
Qed.

End SubstringFacts.

(** ** Groups are pieces of the text *)

Section WithinFacts.
Variable f : flags.

Lemma caps_within_nil t : caps_within t [].
Proof. intros n x []. Qed.

Lemma caps_within_cons t n x g :
  substring x t -> caps_within t g -> caps_within t ((n, x) :: g).
Proof.
  intros Hx Hg m y [E|H]; [by inversion E; subst | by apply (Hg m)].
Qed.

Lemma group_within t n g : caps_within t g -> substring (group n g) t.
Proof.
  induction g as [|[m x] g IH]; intros H; simpl; [apply substring_nil|].
  destruct (Nat.eqb n m).
  - apply (H m). by left.
  - apply IH. intros k y Hy. apply (H k). by right.
Qed.

Lemma taken_substring t s s' :
  suffix s t -> suffix s' s -> substring (take (length s - length s') s) t.
Proof.
  intros [a ->] [b ->]. exists a, s'.
  rewrite length_app.
  replace (length b + length s' - length s')%nat with (length b) by lia.
  by rewrite take_app_length.
Qed.

(** While a pattern is matched inside [t], the groups stay pieces of [t]. *)
Lemma rmatch_within r : forall {A : Type} t s g (k : str -> caps -> option A) res,
  suffix s t -> caps_within t g ->
  rmatch f r s g k = Some res ->
  exists s' g', suffix s' s /\ caps_within t g' /\ k s' g' = Some res.
Proof.
  induction r as [|c|r1 IH1 r2 IH2|r1 IH1 r2 IH2|c|c|n r1 IH1|r1 IH1|];
    intros A t s g k res Hs Hg H; simpl in H.
  - by exists s, g.
  - destruct s as [|x s]; [discriminate|].
    destruct (cls_match f c x); [|discriminate].
    exists s, g. split; [by apply suffix_cons_r | done].
  - apply (IH1 _ t) in H as (s1 & g1 & Hs1 & Hg1 & H); [|done..].
    apply (IH2 _ t) in H as (s2 & g2 & Hs2 & Hg2 & H); [|by etrans|done].
    exists s2, g2. split; [by etrans | done].
  - destruct (rmatch f r1 s g k) eqn:E.
    + inversion H; subst. by apply (IH1 _ t) in E.
    + by apply (IH2 _ t) in H.
  - apply greedy_some in H as (s' & Hs' & H). by exists s', g.
  - apply lazy_some in H as (s' & Hs' & H). by exists s', g.
  - apply (IH1 _ t) in H as (s1 & g1 & Hs1 & Hg1 & H); [|done..].
    exists s1, ((n, take (length s - length s1) s) :: g1).
    split; [done|]. split; [|done].
    apply caps_within_cons; [by apply taken_substring | done].
  - destruct (rmatch f r1 s g _) as [g1|] eqn:E; [|discriminate].
    apply (IH1 _ t) in E as (s1 & g1' & _ & Hg1 & E); [|done..].
    inversion E; subst. by exists s, g1.
  - destruct s; [|discriminate]. by exists [], g.
Qed.

Lemma match_here_within r t s rest g :
  suffix s t -> match_here f r s = Some (rest, g) -> caps_within t g.
Proof.
  intros Hs H. unfold match_here in H.
  apply (rmatch_within r t) in H as (s' & g' & _ & Hg & H);
    [|done | apply caps_within_nil].
  by inversion H; subst.
Qed.

Lemma scan_elem_suffix r s : forall n g,
  In g (scan f r s n) ->
  exists s' rest, suffix s' s /\ match_here f r s' = Some (rest, g).
Proof.
  induction s as [|c s IH]; intros n g H.
  - destruct n; [|contradiction]. cbn [scan] in H.
    destruct (match_here f r []) as [[rest g0]|] eqn:E; [|contradiction].
    destruct H as [<-|[]]. by exists [], rest.
  - assert (forall m, In g (scan f r s m) ->
              exists s' rest, suffix s' (c :: s)
                              /\ match_here f r s' = Some (rest, g)) as Hrec.
    { intros m Hm. apply IH in Hm as (s' & rest & Hs' & Hm).
      exists s', rest. split; [by apply suffix_cons_r | done]. }
    destruct n; cbn [scan] in H; [|by apply Hrec in H].
    destruct (match_here f r (c :: s)) as [[rest g0]|] eqn:E.
    + destruct H as [<-|H]; [by exists (c :: s), rest | by apply Hrec in H].
    + by apply Hrec in H.
Qed.

(** The groups of every match that [findall] returns are pieces of the
    text searched. *)
Lemma findall_within r t g : In g (findall f r t) -> caps_within t g.
Proof.
  intros H. apply scan_elem_suffix in H as (s' & rest & Hs & H).
  by apply (match_here_within r t s' rest).
Qed.

End WithinFacts.

(** ** Text before the first block *)

Section PreambleFacts.
Variable f : flags.

(** A pattern that begins with the literal text [p] finds in [pre ++ s]
    what it finds in [s], when [p] does not occur in [pre] and [s] is
    empty or begins with [p]. *)
Lemma findall_preamble p rs pre s :
  marker f p = true ->
  occurs f p pre = false ->
  s = [] \/ (exists t, s = p ++ t) ->
  findall f (cat (lits p :: rs)) (pre ++ s) = findall f (cat (lits p :: rs)) s.
Proof.
  intros Hm Ho Hs. induction pre as [|c pre IH]; [reflexivity|].
  change ((c :: pre) ++ s) with (c :: (pre ++ s)).
  rewrite findall_nomatch.
  - apply IH. apply (occurs_suffix f p (c :: pre)); [by apply suffix_cons_r | done].
  - unfold match_here. rewrite rmatch_cat_cons. apply rmatch_lits_fail.
    change (c :: pre ++ s) with ((c :: pre) ++ s).
    by apply (marker_not_inside f p (c :: pre) [] (c :: pre)).
Qed.

End PreambleFacts.

(** ** What the helpers return *)

Section ResultFacts.

Lemma truthy_app x y : truthy x = true -> truthy (x ++ y) = true.
Proof. by destruct x. Qed.

Lemma is_failure_truthy t : is_failure t = true -> truthy t = true.
Proof. by destruct t. Qed.

Lemma extractFlashcards_truthy t : result_truthy (extractFlashcards t) = true.
Proof.
  unfold extractFlashcards.
  destruct (map _ (flashcard_matches t)); [|reflexivity].
  destruct (truthy (strip t)); [by apply truthy_app | by vm_compute].
Qed.

Lemma extractQuiz_truthy t : result_truthy (extractQuiz t) = true.
Proof.
  unfold extractQuiz.
  destruct (map quiz_item (quiz_matches t)); [|reflexivity].
  destruct (truthy (strip t)); [by apply truthy_app | by vm_compute].
Qed.

Lemma extractFlashcards_items t cards :
  extractFlashcards t = Items cards ->
  cards = map (fun m => (strip (group 1 m), strip (group 2 m))) (flashcard_matches t).
Proof.
  unfold extractFlashcards.
  destruct (map _ (flashcard_matches t)) eqn:E.
  - destruct (truthy (strip t)); discriminate.
  - intros H. by inversion H.
Qed.

Lemma extractQuiz_items t items :
  extractQuiz t = Items items -> items = map quiz_item (quiz_matches t).
Proof.
  unfold extractQuiz.
  destruct (map quiz_item (quiz_matches t)) eqn:E.
  - destruct (truthy (strip t)); discriminate.
  - intros H. by inversion H.
Qed.

(** Every item that [extractQuiz] returns keeps the invariant. *)
Lemma extractQuiz_items_ok t items :
  extractQuiz t = Items items -> Forall quiz_item_ok items.
Proof.
  intros H. apply extractQuiz_items in H as ->.
  apply Forall_forall. intros it Hit.
  apply list_elem_of_In, in_map_iff in Hit as (m & <- & Hm).
  apply scan_elem in Hm as (s' & rest & Hm).
  apply quiz_match_letter in Hm as (x & Hx & Hl).
  by apply quiz_item_ok_letter with x.
Qed.

Lemma gateway_result model prompt w :
  generate_with_gemini model prompt w
  = ((generate_with_gemini model prompt w).1, w ++ [prompt]).
Proof. reflexivity. Qed.

(** The messages of the gateway for a call that raised or brought no
    content all pass the prefix test of the callers. *)
Lemma gateway_failure_recognised model prompt w :
  (exists e, model w prompt safety_settings = Raise e)
  \/ (exists r, model w prompt safety_settings = Return r
                 /\ (parts r = Return [] \/ exists e, parts r = Raise e)) ->
  is_failure (generate_with_gemini model prompt w).1 = true.
Proof.
  unfold generate_with_gemini, classify, bind. cbn [fst].
  intros [[e ->] | (r & -> & [-> | [e ->]])]; [reflexivity| |reflexivity].
  destruct (block_reason_of r); [reflexivity|].
  destruct (candidates r) as [|c cs]; [reflexivity|].
  by destruct (enum_ne_str (finish_reason c) (py "STOP")).
Qed.

Lemma flashcard_matches_preamble pre s :
  occurs pf mk_question pre = false ->
  s = [] \/ (exists t, s = mk_question ++ t) ->
  flashcard_matches (pre ++ s) = flashcard_matches s.
Proof.
  intros Ho Hs. unfold flashcard_matches, flashcard_pattern.
  by apply (findall_preamble pf mk_question); [apply marker_question|..].
Qed.

Lemma quiz_matches_preamble pre s :
  occurs pf mk_question pre = false ->
  s = [] \/ (exists t, s = mk_question ++ t) ->
  quiz_matches (pre ++ s) = quiz_matches s.
Proof.
  intros Ho Hs. unfold quiz_matches, quiz_pattern.
  by apply (findall_preamble pf mk_question); [apply marker_question|..].
Qed.

End ResultFacts.

(** ** Further properties of the helpers *)

(** X1.  [generate_flashcards] and [generate_quiz] never return an empty
    string or an empty list: what they return is true in Python's sense,
    so the tab that stores it always shows it, as an error or as the
    list. *)
Theorem X1_result_never_empty (model : Service) (text : str) (w : World) :
  result_truthy (generate_flashcards model text w).1 = true
  /\ result_truthy (generate_quiz model text w).1 = true.
Proof.
  split.
  - unfold generate_flashcards. destruct (truthy text); cbn [negb]; [|by vm_compute].
    rewrite gateway_result.
    destruct (is_failure _) eqn:E; cbn [fst].
    + by apply is_failure_truthy.
    + apply extractFlashcards_truthy.
  - unfold generate_quiz. destruct (truthy text); cbn [negb]; [|by vm_compute].
    rewrite gateway_result.
    destruct (is_failure _) eqn:E; cbn [fst].
    + by apply is_failure_truthy.
    + apply extractQuiz_truthy.
Qed.

(** X2.  Whatever the text, every flashcard that [extractFlashcards]
    returns is made of two pieces of that text, each without white space
    at its ends: the extractor adds no text of its own. *)
Theorem X2_flashcards_from_text (text : str) (cards : list (str * str)) :
  extractFlashcards text = Items cards ->
  Forall (fun c => substring c.1 text /\ substring c.2 text
                   /\ trimmed c.1 /\ trimmed c.2) cards.
Proof.
  intros H. apply extractFlashcards_items in H as ->.
  apply Forall_forall. intros c Hc.
  apply list_elem_of_In, in_map_iff in Hc as (m & <- & Hm).
  apply findall_within in Hm. cbn [fst snd].
  repeat split; try apply strip_trimmed;
    (eapply substring_trans; [apply strip_substring | by apply group_within]).
Qed.

Lemma X2_witness :
  Forall (fun c => substring c.1 sample_flashcards_text
                   /\ substring c.2 sample_flashcards_text
                   /\ trimmed c.1 /\ trimmed c.2) sample_flashcards.
Proof.
  apply (X2_flashcards_from_text sample_flashcards_text sample_flashcards).
  vm_compute. reflexivity.
Defined.

(** X3.  Whatever the text, the question and the four option texts of
    every quiz item that [extractQuiz] returns are pieces of that text,
    without white space at their ends. *)
Theorem X3_quiz_items_from_text (text : str) (items : list QuizItem) :
  extractQuiz text = Items items ->
  Forall (fun it => (substring (question it) text /\ trimmed (question it))
                    /\ forall k v, options it !! k = Some v ->
                                   substring v text /\ trimmed v) items.
Proof.
  intros H. apply extractQuiz_items in H as ->.
  apply Forall_forall. intros it Hit.
  apply list_elem_of_In, in_map_iff in Hit as (m & <- & Hm).
  apply findall_within in Hm.
  assert (forall n, substring (strip (group n m)) text /\ trimmed (strip (group n m)))
    as Hn.
  { intros n. split; [|apply strip_trimmed].
    eapply substring_trans; [apply strip_substring | by apply group_within]. }
  unfold quiz_item. cbn [question options]. split; [apply Hn|].
  intros k v Hk.
  repeat (apply lookup_insert_Some in Hk as [[_ <-] | [_ Hk]]; [apply Hn|]).
  by rewrite lookup_empty in Hk.
Qed.

Lemma X3_witness :
  Forall (fun it => (substring (question it) merged_quiz_text /\ trimmed (question it))
                    /\ forall k v, options it !! k = Some v ->
                                   substring v merged_quiz_text /\ trimmed v)
    [merged_quiz_item].
Proof.
  apply (X3_quiz_items_from_text merged_quiz_text [merged_quiz_item]).
  vm_compute. reflexivity.
Defined.

(** X4.  Text in front of the first flashcard block in which [Question:]
    does not occur, in any letter case, is ignored: the flashcards are
    those of the blocks. *)
Theorem X4_flashcards_preamble_ignored (pre : str) (bs : list FlashcardBlock) :
  occurs pf mk_question pre = false ->
  bs <> [] ->
  forallb well_formed_flashcard_block bs = true ->
  extractFlashcards (pre ++ render_flashcard_blocks bs)
  = Items (map flashcard_of_block bs).
Proof.
  intros Hpre Hne Hwf. unfold extractFlashcards.
  rewrite flashcard_matches_preamble.
  - rewrite (flashcard_matches_blocks bs Hwf), map_map.
    rewrite (map_ext _ flashcard_of_block) by apply flashcard_of_groups.
    destruct bs; [done | reflexivity].
  - exact Hpre.
  - right. destruct bs as [|b bs]; [done|]. apply render_flashcard_blocks_starts.
Qed.

Lemma X4_witness :
  extractFlashcards (py "Here are your flashcards:\n\n"
                     ++ render_flashcard_blocks sample_flashcard_blocks)
  = Items (map flashcard_of_block sample_flashcard_blocks).
Proof.
  apply (X4_flashcards_preamble_ignored (py "Here are your flashcards:\n\n")
           sample_flashcard_blocks);
    [vm_compute; reflexivity | discriminate | vm_compute; reflexivity].
Defined.

(** X5.  In a quiz text, well-formed blocks that stand behind text
    without [Question:] are extracted as their items whatever follows
    them, the search going on behind the last block; when what follows
    has no line that begins with [C)], the result is exactly the items of
    the blocks. *)
Theorem X5_quiz_blocks_amid_text (pre : str) (bs : list QuizBlock) (tail : str) :
  occurs pf mk_question pre = false ->
  bs <> [] ->
  forallb well_formed_quiz_block bs = true ->
  extractQuiz (pre ++ render_quiz_blocks bs ++ tail)
  = Items (map quiz_item_of_block bs ++ map quiz_item (quiz_matches tail))
  /\ (occurs pf mk_C tail = false ->
      extractQuiz (pre ++ render_quiz_blocks bs ++ tail)
      = Items (map quiz_item_of_block bs)).
Proof.
  intros Hpre Hne Hwf.
  assert (extractQuiz (pre ++ render_quiz_blocks bs ++ tail)
          = Items (map quiz_item_of_block bs ++ map quiz_item (quiz_matches tail)))
    as E.
  { unfold extractQuiz. rewrite quiz_matches_preamble; [|exact Hpre|].
    - rewrite (quiz_matches_blocks bs tail Hwf), map_app, map_map.
      rewrite (map_ext_in _ quiz_item_of_block).
      + destruct bs; [done | reflexivity].
      + intros b Hb. apply quiz_item_groups.
        rewrite forallb_forall in Hwf. auto.
    - right. destruct bs as [|b bs]; [done|].
      rewrite render_quiz_blocks_cons. unfold render_quiz_block.
      rewrite <- !app_assoc. eauto. }
  split; [exact E|].
  intros Htail. rewrite E, (quiz_matches_without_C tail Htail).
  by rewrite app_nil_r.
Qed.

Lemma X5_witness :
  extractQuiz (py "Sure! Here is your quiz.\n\n"
               ++ render_quiz_blocks [sample_quiz_block_1; sample_quiz_block_2]
               ++ py "Good luck!")
  = Items (map quiz_item_of_block [sample_quiz_block_1; sample_quiz_block_2]).
Proof.
  destruct (X5_quiz_blocks_amid_text (py "Sure! Here is your quiz.\n\n")
              [sample_quiz_block_1; sample_quiz_block_2] (py "Good luck!"))
    as [_ H]; [vm_compute; reflexivity | discriminate | vm_compute; reflexivity |].
  apply H. vm_compute. reflexivity.
Defined.

(** X6.  When the call of the service raises, or the response has no
    content, the message of the gateway passes the prefix test, and
    [generate_flashcards] and [generate_quiz] return that message: they
    never return flashcards or quiz items for a failed call. *)
Theorem X6_failed_call_gives_message (model : Service) (text : str) (w : World) :
  truthy text = true ->
  ((exists e, model w (flashcards_prompt text) safety_settings = Raise e)
   \/ (exists r, model w (flashcards_prompt text) safety_settings = Return r
                 /\ (parts r = Return [] \/ exists e, parts r = Raise e)) ->
   exists msg, (generate_with_gemini model (flashcards_prompt text) w).1 = msg
               /\ is_failure msg = true
               /\ generate_flashcards model text w
                  = (Message msg, w ++ [flashcards_prompt text]))
  /\ ((exists e, model w (quiz_prompt text) safety_settings = Raise e)
      \/ (exists r, model w (quiz_prompt text) safety_settings = Return r
                    /\ (parts r = Return [] \/ exists e, parts r = Raise e)) ->
      exists msg, (generate_with_gemini model (quiz_prompt text) w).1 = msg
                  /\ is_failure msg = true
                  /\ generate_quiz model text w
                     = (Message msg, w ++ [quiz_prompt text])).
Proof.
  intros Ht. split; intros H; apply gateway_failure_recognised in H;
    eexists; (split; [reflexivity|]); (split; [exact H|]).
  - unfold generate_flashcards. rewrite Ht. cbn [negb].
    rewrite gateway_result. by rewrite H.
  - unfold generate_quiz. rewrite Ht. cbn [negb].
    rewrite gateway_result. by rewrite H.
Qed.

Lemma X6_witness :
  exists msg,
    (generate_with_gemini
       (constant_service (Raise {| exc_str := u "503 Service Unavailable" |}))
       (quiz_prompt (u "notes")) []).1 = msg
    /\ is_failure msg = true
    /\ generate_quiz
         (constant_service (Raise {| exc_str := u "503 Service Unavailable" |}))
         (u "notes") []
       = (Message msg, [] ++ [quiz_prompt (u "notes")]).
Proof.
  destruct (X6_failed_call_gives_message
              (constant_service (Raise {| exc_str := u "503 Service Unavailable" |}))
              (u "notes") []) as [_ H]; [reflexivity|].
  apply H. left. eexists. reflexivity.
Defined.

(** ** When a pattern of fields matches *)

Section ChainFacts.
Variable f : flags.
Hypothesis f_dotall : DOTALL f = true.

Lemma chain_unfold p ps fin s :
  chain f (p :: ps) fin s
  = (prefix_ci f p s && chain f ps fin (drop (length p) s))
    || match s with
       | [] => false
       | _ :: s' => chain f (p :: ps) fin s'
       end.
Proof. by destruct s. Qed.

Lemma chain_cons_spec p ps fin s :
  chain f (p :: ps) fin s = true
  <-> exists a b, s = a ++ b /\ prefix_ci f p b = true
                  /\ chain f ps fin (drop (length p) b) = true.
Proof.
  split.
  - induction s as [|c s IH]; rewrite chain_unfold; intros H;
      apply orb_prop in H as [H|H].
    + apply andb_prop in H as [H1 H2]. by exists [], [].
    + discriminate.
    + apply andb_prop in H as [H1 H2]. by exists [], (c :: s).
    + destruct (IH H) as (a & b & -> & H1 & H2). by exists (c :: a), b.
  - intros (a & b & -> & H1 & H2). induction a as [|c a IH].
    + change ([] ++ b) with b. rewrite chain_unfold. by rewrite H1, H2.
    + change ((c :: a) ++ b) with (c :: (a ++ b)).
      rewrite chain_unfold, IH. apply orb_true_r.
Qed.

Section Conts.
Context {A : Type}.

Lemma greedy_reach c s (k : str -> option A) :
  is_Some (k s) -> is_Some (greedy f c s k).
Proof.
  intros H. destruct s as [|x s]; [exact H|]. simpl.
  destruct (cls_match f c x); [|exact H].
  by destruct (greedy f c s k).
Qed.

Lemma lazy_reach pre t (k : str -> option A) :
  is_Some (k t) -> is_Some (lazy f CAny (pre ++ t) k).
Proof.
  intros H. induction pre as [|c pre IH].
  - simpl app. destruct t; simpl; by destruct H as [r ->].
  - change ((c :: pre) ++ t) with (c :: (pre ++ t)). cbn [lazy].
    destruct (k (c :: pre ++ t)); [done|].
    simpl cls_match. by rewrite f_dotall.
Qed.

Lemma greedy_space_some s (k : str -> option A) r :
  greedy f CSpace s k = Some r ->
  exists w s', s = w ++ s' /\ blank w = true /\ k s' = Some r.
Proof.
  induction s as [|x s IH]; simpl; intros H.
  - by exists [], [].
  - destruct (is_space x) eqn:E; [|by exists [], (x :: s)].
    destruct (greedy f CSpace s k) eqn:Eg; [|by exists [], (x :: s)].
    destruct (IH H) as (w & s' & -> & Hw & Hk).
    exists (x :: w), s'. repeat split; [|done]. simpl. by rewrite E.
Qed.

(** A field and its marker, then the rest: the match succeeds exactly
    when the marker matches somewhere and the rest matches behind it. *)
Lemma field_succeeds n p rs (k : str -> caps -> option A) (P : str -> Prop) :
  (forall s g, is_Some (rmatch f (cat rs) s g k) <-> P s) ->
  forall s g,
    is_Some (rmatch f (cat (StarG CSpace :: Group n (StarL CAny) :: lits p :: rs)) s g k)
    <-> exists a b, s = a ++ b /\ prefix_ci f p b = true
                    /\ P (drop (length p) b).
Proof.
  intros HP s g. split.
  - intros [res H]. rewrite rmatch_cat_cons in H.
    apply rmatch_some in H as (s1 & g1 & [a1 ->] & H).
    rewrite rmatch_cat_cons in H.
    apply rmatch_some in H as (s2 & g2 & [a2 ->] & H).
    rewrite rmatch_cat_cons in H.
    destruct (prefix_ci f p s2) eqn:E.
    + rewrite rmatch_lits_ok in H by exact E.
      exists (a1 ++ a2), s2. rewrite <- app_assoc. repeat split; [done|].
      apply (HP _ g2). by exists res.
    + rewrite rmatch_lits_fail in H by exact E. discriminate.
  - intros (a & b & -> & Hp & Hb).
    rewrite rmatch_cat_cons. cbn [rmatch]. apply greedy_reach.
    rewrite rmatch_cat_cons. cbn [rmatch]. apply lazy_reach.
    rewrite rmatch_cat_cons, rmatch_lits_ok by exact Hp.
    by apply HP.
Qed.

Lemma fields_succeed l rest fin (k : str -> caps -> option A) :
  (forall s g, is_Some (rmatch f (cat rest) s g k) <-> fin s = true) ->
  forall s g,
    is_Some (rmatch f (cat (fields l rest)) s g k)
    <-> chain f (map snd l) fin s = true.
Proof.
  intros Hrest. induction l as [|[n p] l IH]; intros s g; [apply Hrest|].
  cbn [fields map snd]. rewrite chain_cons_spec.
  apply (field_succeeds n p (fields l rest) k
           (fun s' => chain f (map snd l) fin s' = true)).
  exact IH.
Qed.

End Conts.

Lemma findall_nonempty r s :
  findall f r s <> [] <-> exists a b, s = a ++ b /\ is_Some (match_here f r b).
Proof.
  split.
  - intros H. destruct (findall f r s) as [|g l] eqn:E; [done|].
    assert (In g (findall f r s)) as Hg by (rewrite E; by left).
    apply scan_elem_suffix in Hg as (s' & rest & [a ->] & Hm).
    exists a, s'. split; [done|]. by exists (rest, g).
  - intros (a & b & -> & [[rest g] Hm]). induction a as [|c a IH].
    + unfold findall. simpl app. destruct b; cbn [scan]; by rewrite Hm.
    + change ((c :: a) ++ b) with (c :: (a ++ b)). unfold findall. cbn [scan].
      destruct (match_here f r (c :: a ++ b)) as [[rest' g']|]; [done|].
      exact IH.
Qed.

(** A pattern that is a literal text followed by fields finds a match in
    a text exactly when its markers occur there in their order. *)
Lemma findall_fields q l rest fin s :
  (forall s g, is_Some (rmatch f (cat rest) s g (fun s' g' => Some (s', g')))
               <-> fin s = true) ->
  findall f (cat (lits q :: fields l rest)) s <> []
  <-> chain f (q :: map snd l) fin s = true.
Proof.
  intros Hrest. rewrite findall_nonempty, chain_cons_spec.
  split; intros (a & b & -> & H); exists a, b; (split; [done|]).
  - unfold match_here in H. rewrite rmatch_cat_cons in H.
    destruct (prefix_ci f q b) eqn:E.
    + rewrite rmatch_lits_ok in H by exact E. split; [done|].
      by apply (fields_succeed l rest fin _ Hrest) in H.
    + rewrite rmatch_lits_fail in H by exact E. by destruct H.
  - destruct H as [Hq Hc]. unfold match_here.
    rewrite rmatch_cat_cons, rmatch_lits_ok by exact Hq.
    by apply (fields_succeed l rest fin _ Hrest).
Qed.

End ChainFacts.

Section PatternChains.

(** What ends the quiz pattern: white space and the answer letter. *)
Lemma quiz_end_succeeds s g :
  is_Some (rmatch pf (cat [StarG CSpace; Group 6 (Chr (CRange 65 4))]) s g
             (fun s' g' => Some (s', g')))
  <-> letter_next s = true.
Proof.
  unfold letter_next. split.
  - intros [res H]. rewrite rmatch_cat_cons in H. cbn [rmatch] in H.
    apply greedy_space_some in H as (w & s' & -> & Hw & H).
    rewrite rmatch_cat_cons in H. cbn [rmatch] in H.
    destruct s' as [|x t]; [discriminate|].
    destruct (cls_match pf (CRange 65 4) x) eqn:E; [|discriminate].
    apply range_AD_chars in E.
    rewrite lstrip_app_blank by exact Hw. simpl.
    by rewrite (answer_letter_not_space x E).
  - destruct (lstrip s) as [|x t] eqn:E; [discriminate|]. intros Hx.
    rewrite rmatch_cat_cons. cbn [rmatch].
    destruct (greedy pf CSpace s _) eqn:Eg; [done|].
    erewrite greedy_lstrip in Eg; [discriminate|].
    rewrite E, rmatch_cat_cons. cbn [rmatch].
    by rewrite (answer_letter_match x Hx).
Qed.

(** What ends the flashcard pattern matches everywhere: the answer can
    run to the end of the text. *)
Lemma flashcard_end_succeeds s g :
  is_Some (rmatch pf (cat [StarG CSpace; Group 2 (StarL CAny);
                           Look (Alt (lits mk_next) EndZ)]) s g
             (fun s' g' => Some (s', g')))
  <-> (fun _ : str => true) s = true.
Proof.
  split; [done|]. intros _.
  rewrite rmatch_cat_cons. cbn [rmatch]. apply greedy_reach.
  rewrite rmatch_cat_cons. cbn [rmatch].
  rewrite <- (app_nil_r s) at 1. apply lazy_reach; [reflexivity|].
  rewrite rmatch_cat_cons. cbn [rmatch].
  rewrite rmatch_lits_fail by reflexivity. done.
Qed.

Lemma flashcard_matches_nonempty text :
  flashcard_matches text <> []
  <-> chain pf [mk_question; mk_answer] (fun _ => true) text = true.
Proof.
  apply (findall_fields pf pf_dotall mk_question [(1%nat, mk_answer)]
           [StarG CSpace; Group 2 (StarL CAny); Look (Alt (lits mk_next) EndZ)]).
  apply flashcard_end_succeeds.
Qed.

Lemma quiz_matches_nonempty text :
  quiz_matches text <> []
  <-> chain pf [mk_question; mk_A; mk_B; mk_C; mk_D; mk_answer] letter_next text
      = true.
Proof.
  apply (findall_fields pf pf_dotall mk_question
           [(1%nat, mk_A); (2%nat, mk_B); (3%nat, mk_C); (4%nat, mk_D);
            (5%nat, mk_answer)]
           [StarG CSpace; Group 6 (Chr (CRange 65 4))]).
  apply quiz_end_succeeds.
Qed.

End PatternChains.

(** X7.  [extractFlashcards] returns flashcards exactly when the text has,
    in any letter case, [Question:] and somewhere behind it a newline
    followed by [Answer:]; otherwise it returns a message. *)
Theorem X7_flashcards_found_iff (text : str) :
  (exists cards, extractFlashcards text = Items cards)
  <-> chain pf [mk_question; mk_answer] (fun _ => true) text = true.
Proof.
  rewrite <- flashcard_matches_nonempty. unfold extractFlashcards.
  destruct (flashcard_matches text) as [|m ms]; cbn [map].
  - split; [|done]. intros [cards H].
    destruct (truthy (strip text)); discriminate.
  - split; [done | eauto].
Qed.

(** X8.  [extractQuiz] returns quiz items exactly when the text has, in
    this order and in any letter case, [Question:], then a newline with
    [A)], one with [B)], one with [C)], one with [D)] and one with
    [Answer:], followed after white space by a letter from A to D; the
    six markers need not stand in one block. *)
Theorem X8_quiz_found_iff (text : str) :
  (exists items, extractQuiz text = Items items)
  <-> chain pf [mk_question; mk_A; mk_B; mk_C; mk_D; mk_answer] letter_next text
      = true.
Proof.
  rewrite <- quiz_matches_nonempty. unfold extractQuiz.
  destruct (quiz_matches text) as [|m ms]; cbn [map].
  - split; [|done]. intros [items H].
    destruct (truthy (strip text)); discriminate.
  - split; [done | eauto].
Qed.

(** ** The quiz results page *)

Section ResultsPageFacts.

Lemma before_paren_key k rest :
  Forall (fun c => c <> 41) k -> before_paren (k ++ 41 :: rest) = k.
Proof.
  induction 1 as [|c k Hc Hk IH]; simpl.
  - reflexivity.
  - destruct (N.eqb_spec c 41); [done | by rewrite IH].
Qed.

Lemma quiz_item_ok_keys item k v :
  quiz_item_ok item -> options item !! k = Some v ->
  before_paren (option_label k v) = k /\ truthy (option_label k v) = true.
Proof.
  intros (Hdom & _ & _) Hk.
  assert (k ∈ dom (options item)) as Hin by (apply elem_of_dom; eauto).
  rewrite Hdom in Hin. unfold option_label.
  change (py ") " ++ v) with (41 :: 32 :: v).
  split.
  - apply before_paren_key.
    set_unfold in Hin. destruct Hin as [[[-> | ->] | ->] | ->];
      repeat constructor; discriminate.
  - set_unfold in Hin. by destruct Hin as [[[-> | ->] | ->] | ->].
Qed.

Lemma quiz_item_ok_lookup item :
  quiz_item_ok item -> is_Some (options item !! answer item).
Proof. intros (_ & Hin & _). by apply elem_of_dom. Qed.

Lemma successes_app a b : successes (a ++ b) = (successes a + successes b)%nat.
Proof. unfold successes. by rewrite List.filter_app, length_app. Qed.

(** One round adds at most one to the score, and exactly when it shows
    "Correct!". *)
Lemma grade_item_score i item qa s shown s' :
  grade_item i item qa s = Some (shown, s') ->
  (s <= s' <= S s)%nat /\ successes shown = (s' - s)%nat.
Proof.
  unfold grade_item.
  destruct (options item !! answer item) as [correct_text|]; [|discriminate].
  destruct (bool_decide _); [|destruct (truthy_opt _)];
    intros H; inversion H; subst; (split; [lia|]);
    unfold successes; cbn [app List.filter is_success length]; lia.
Qed.

Lemma grade_loop_score l : forall i qa s shown s',
  grade_loop i l qa s = Some (shown, s') ->
  (s <= s' <= s + length l)%nat /\ successes shown = (s' - s)%nat.
Proof.
  induction l as [|item l IH]; intros i qa s shown s' H; cbn [grade_loop] in H.
  - inversion H; subst. simpl. split; [lia|]. unfold successes. simpl. lia.
  - destruct (grade_item i item qa s) as [[sh1 s1]|] eqn:E1; [|discriminate].
    destruct (grade_loop (S i) l qa s1) as [[sh2 s2]|] eqn:E2; [|discriminate].
    inversion H; subst.
    apply grade_item_score in E1 as [H1 H1'].
    apply IH in E2 as [H2 H2'].
    rewrite successes_app, H1', H2'. simpl. lia.
Qed.

Lemma grade_loop_ok l : forall i qa s,
  Forall quiz_item_ok l -> is_Some (grade_loop i l qa s).
Proof.
  induction l as [|item l IH]; intros i qa s H; cbn [grade_loop]; [done|].
  inversion H as [|? ? Hitem Hl]; subst.
  destruct (quiz_item_ok_lookup item Hitem) as [v Hv].
  assert (is_Some (grade_item i item qa s)) as [[sh1 s1] ->].
  { unfold grade_item. cbv zeta. unfold str in *. rewrite Hv.
    destruct (bool_decide _); [done|]. by destruct (truthy_opt _). }
  destruct (IH (S i) qa s1 Hl) as [[sh2 s2] ->]. done.
Qed.

Lemma generate_quiz_items model text w quiz_data :
  (generate_quiz model text w).1 = Items quiz_data ->
  exists quiz_text, extractQuiz quiz_text = Items quiz_data.
Proof.
  unfold generate_quiz. destruct (truthy text); cbn [negb]; [|discriminate].
  rewrite gateway_result. destruct (is_failure _); cbn [fst]; [discriminate|].
  eauto.
Qed.

(** The round for a question that was answered with the label of the
    option under the key [k]. *)
Lemma grade_item_choice i item qa s k v :
  quiz_item_ok item -> options item !! k = Some v ->
  get_answer qa i = Some (option_label k v) ->
  exists shown,
    grade_item i item qa s
    = Some (shown, if bool_decide (k = answer item) then S s else s)
    /\ successes shown = (if bool_decide (k = answer item) then 1 else 0)%nat.
Proof.
  intros Hok Hk Hqa.
  destruct (quiz_item_ok_keys item k v Hok Hk) as [Hb Ht].
  destruct (quiz_item_ok_lookup item Hok) as [cv Hcv].
  unfold grade_item. cbv zeta. unfold str in *. rewrite Hqa, Hcv.
  cbn [truthy_opt fmap option_fmap option_map].
  rewrite Ht, Hb.
  rewrite (bool_decide_ext (Some k = Some (answer item)) (k = answer item))
    by (split; [by intros [= ->] | by intros ->]).
  destruct (bool_decide (k = answer item)); eexists; (split; [reflexivity|]);
    unfold successes; cbn [app List.filter is_success length]; lia.
Qed.

Lemma grade_item_unanswered i item qa s :
  quiz_item_ok item -> truthy_opt (get_answer qa i) = false ->
  exists shown, grade_item i item qa s = Some (shown, s) /\ successes shown = 0%nat.
Proof.
  intros Hok Hqa.
  destruct (quiz_item_ok_lookup item Hok) as [cv Hcv].
  unfold grade_item. cbv zeta. unfold str in *. rewrite Hqa, Hcv.
  rewrite bool_decide_eq_false_2 by discriminate.
  eexists. split; [reflexivity|].
  unfold successes. cbn [app List.filter is_success length]. lia.
Qed.

Lemma perfect_answers_lookup l : forall i j item,
  l !! j = Some item ->
  get_answer (perfect_answers i l) (i + j)
  = Some (option_label (answer item) (default [] (options item !! answer item))).
Proof.
  induction l as [|x l IH]; intros i j item H; [done|].
  unfold get_answer. cbn [perfect_answers]. destruct j as [|j].
  - inversion H; subst. rewrite Nat.add_0_r. by rewrite lookup_insert_eq.
  - rewrite lookup_insert_ne by lia.
    replace (i + S j)%nat with (S i + j)%nat by lia.
    apply (IH (S i) j item H).
Qed.

(** The loop over questions that are all answered with the option under
    the stored answer. *)
Lemma grade_loop_perfect l : forall i qa s,
  Forall quiz_item_ok l ->
  (forall j item, l !! j = Some item ->
     get_answer qa (i + j)
     = Some (option_label (answer item) (default [] (options item !! answer item)))) ->
  exists shown, grade_loop i l qa s = Some (shown, (s + length l)%nat).
Proof.
  induction l as [|item l IH]; intros i qa s Hok Hqa; cbn [grade_loop].
  - exists []. by rewrite Nat.add_0_r.
  - inversion Hok as [|? ? Hitem Hl]; subst.
    destruct (quiz_item_ok_lookup item Hitem) as [cv Hcv].
    destruct (grade_item_choice i item qa s (answer item) cv Hitem Hcv)
      as (sh1 & -> & _).
    { rewrite <- (Nat.add_0_r i). rewrite (Hqa 0%nat item eq_refl).
      unfold str in *. by rewrite Hcv. }
    rewrite bool_decide_eq_true_2 by reflexivity.
    destruct (IH (S i) qa (S s) Hl) as (sh2 & ->).
    { intros j it Hj. replace (S i + j)%nat with (i + S j)%nat by lia.
      by apply Hqa. }
    exists (sh1 ++ sh2). simpl. do 2 f_equal. lia.
Qed.

Lemma grade_loop_unanswered l : forall i s,
  Forall quiz_item_ok l ->
  exists shown, grade_loop i l ∅ s = Some (shown, s) /\ successes shown = 0%nat.
Proof.
  induction l as [|item l IH]; intros i s Hok; cbn [grade_loop].
  - by exists [].
  - inversion Hok as [|? ? Hitem Hl]; subst.
    destruct (grade_item_unanswered i item ∅ s Hitem) as (sh1 & -> & H1);
      [reflexivity|].
    destruct (IH (S i) s Hl) as (sh2 & -> & H2).
    exists (sh1 ++ sh2). split; [done|]. rewrite successes_app. lia.
Qed.

End ResultsPageFacts.

(** X9.  The results page never fails on what [generate_quiz] returned:
    for every list of quiz items it returns and whatever the stored
    answers, the look-up [item['options'][correct_answer]] finds its key
    for every item, and the page is shown to its last line. *)
Theorem X9_results_page_no_key_error (model : Service) (text : str) (w : World)
    (quiz_data : list QuizItem) (quiz_answers : gmap nat (option str)) :
  (generate_quiz model text w).1 = Items quiz_data ->
  exists shown score, quiz_results quiz_data quiz_answers = Some (shown, score).
Proof.
  intros H. apply generate_quiz_items in H as [t H].
  apply extractQuiz_items_ok in H.
  unfold quiz_results.
  destruct (grade_loop_ok quiz_data 0 quiz_answers 0 H) as [[shown score] ->].
  eauto.
Qed.

Lemma X9_witness :
  exists shown score,
    quiz_results sample_quiz_items sample_quiz_answers = Some (shown, score).
Proof.
  apply (X9_results_page_no_key_error
           (constant_service
              (Return (text_response
                         (render_quiz_blocks [sample_quiz_block_1; sample_quiz_block_2]))))
           (u "notes") []).
  vm_compute. reflexivity.
Defined.

(** X10.  For a quiz item that [extractQuiz] returned, the round of the
    results page for a question answered with the radio label of the
    option under key [k] shows "Correct!" and adds one to the score
    exactly when [k] is the stored answer; otherwise the score stays. *)
Theorem X10_choice_graded_by_key (text : str) (items : list QuizItem)
    (i : nat) (item : QuizItem) (quiz_answers : gmap nat (option str))
    (score : nat) (k v : str) :
  extractQuiz text = Items items -> In item items ->
  options item !! k = Some v ->
  get_answer quiz_answers i = Some (option_label k v) ->
  exists shown,
    grade_item i item quiz_answers score
    = Some (shown, if bool_decide (k = answer item) then S score else score)
    /\ successes shown = (if bool_decide (k = answer item) then 1 else 0)%nat.
Proof.
  intros H Hin Hk Hqa. apply extractQuiz_items_ok in H.
  rewrite Forall_forall in H.
  apply (grade_item_choice i item quiz_answers score k v); [|done..].
  apply H. by apply list_elem_of_In.
Qed.

Lemma X10_witness :
  exists shown,
    grade_item 1 (quiz_item_of_block sample_quiz_block_2) sample_quiz_answers 1
    = Some (shown,
            if bool_decide (u "A" = answer (quiz_item_of_block sample_quiz_block_2))
            then 2%nat else 1%nat)
    /\ successes shown
       = (if bool_decide (u "A" = answer (quiz_item_of_block sample_quiz_block_2))
          then 1 else 0)%nat.
Proof.
  apply (X10_choice_graded_by_key
           (render_quiz_blocks [sample_quiz_block_1; sample_quiz_block_2])
           sample_quiz_items 1 (quiz_item_of_block sample_quiz_block_2)
           sample_quiz_answers 1 (u "A") (u "0")).
  - vm_compute. reflexivity.
  - right. left. reflexivity.
  - vm_compute. reflexivity.
  - vm_compute. reflexivity.
Defined.

(** X11.  On the results page the score is the number of "Correct!"
    verdicts shown, it is at most the number of questions, and the last
    line shown is the score line with this score and this total. *)
Theorem X11_score_counts_correct (quiz_data : list QuizItem)
    (quiz_answers : gmap nat (option str)) (shown : list Widget) (score : nat) :
  quiz_results quiz_data quiz_answers = Some (shown, score) ->
  (score <= length quiz_data)%nat
  /\ successes shown = score
  /\ last shown = Some (score_line score (length quiz_data)).
Proof.
  unfold quiz_results.
  destruct (grade_loop 0 quiz_data quiz_answers 0) as [[sh sc]|] eqn:E; [|discriminate].
  intros H. inversion H; subst. apply grade_loop_score in E as [E1 E2].
  split; [lia|]. split.
  - change (successes ([st_subheader (py "Quiz Results")] ++ sh
                       ++ [score_line score (length quiz_data)]) = score).
    rewrite !successes_app, E2. unfold successes.
    cbn [List.filter is_success score_line length]. lia.
  - change (last ((st_subheader (py "Quiz Results") :: sh)
                  ++ [score_line score (length quiz_data)])
            = Some (score_line score (length quiz_data))).
    apply last_snoc.
Qed.

Lemma X11_witness :
  (1 <= length sample_quiz_items)%nat
  /\ successes
       (default [] (fst <$> quiz_results sample_quiz_items sample_quiz_answers))
     = 1%nat
  /\ last (default [] (fst <$> quiz_results sample_quiz_items sample_quiz_answers))
     = Some (score_line 1 (length sample_quiz_items)).
Proof.
  apply (X11_score_counts_correct sample_quiz_items sample_quiz_answers).
  vm_compute. reflexivity.
Defined.

(** X12.  For quiz items that [extractQuiz] returned, a user who picks for
    every question the option under the stored answer gets the full
    score, and one who answers no question gets 0. *)
Theorem X12_full_and_zero_score (text : str) (quiz_data : list QuizItem) :
  extractQuiz text = Items quiz_data ->
  (exists shown,
     quiz_results quiz_data (perfect_answers 0 quiz_data)
     = Some (shown, length quiz_data))
  /\ (exists shown, quiz_results quiz_data ∅ = Some (shown, 0%nat)).
Proof.
  intros H. apply extractQuiz_items_ok in H. unfold quiz_results. split.
  - destruct (grade_loop_perfect quiz_data 0 (perfect_answers 0 quiz_data) 0 H)
      as (shown & ->); [|eauto].
    intros j item Hj. by apply perfect_answers_lookup.
  - destruct (grade_loop_unanswered quiz_data 0 0 H) as (shown & -> & _). eauto.
Qed.

Lemma X12_witness :
  (exists shown,
     quiz_results sample_quiz_items (perfect_answers 0 sample_quiz_items)
     = Some (shown, length sample_quiz_items))
  /\ (exists shown, quiz_results sample_quiz_items ∅ = Some (shown, 0%nat)).
Proof.
  apply (X12_full_and_zero_score
           (render_quiz_blocks [sample_quiz_block_1; sample_quiz_block_2])
           sample_quiz_items).
  vm_compute. reflexivity.
Defined.

(** ** Markers in any letter case *)

Section VariantFacts.

Lemma variant_length f p p' : variant f p p' = true -> length p' = length p.
Proof.
  revert p'. induction p as [|c p IH]; intros [|x p'] H; try done.
  simpl in H. apply andb_prop in H as [_ H]. simpl. by rewrite (IH p' H).
Qed.

Lemma variant_prefix f p p' t : variant f p p' = true -> prefix_ci f p (p' ++ t) = true.
Proof.
  revert p'. induction p as [|c p IH]; intros [|x p'] H; try done.
  simpl in *. apply andb_prop in H as [Hc H]. by rewrite Hc, (IH p' H).
Qed.

(** Two ASCII characters of a pattern that match one and the same
    character match the same characters. *)
Lemma lit_match_class c d x y :
  c < 128 -> d < 128 ->
  lit_match pf c x = true -> lit_match pf d x = true ->
  lit_match pf c y = lit_match pf d y.
Proof.
  intros Hc Hd H1 H2.
  assert (ascii_lower c = ascii_lower d) as E; [|unfold lit_match; by rewrite E].
  assert (ascii_lower c < 128 /\ ascii_lower d < 128) as [Hlc Hld].
  { unfold ascii_lower.
    destruct (N.leb_spec 65 c); destruct (N.leb_spec c 90);
      destruct (N.leb_spec 65 d); destruct (N.leb_spec d 90); simpl; lia. }
  assert (forall l, (sre_lower x =? l) || existsb (N.eqb x) (ignorecase_fixes l) = true ->
            sre_lower x = l \/ (x = 305 /\ l = 105) \/ (x = 383 /\ l = 115)) as Hcases.
  { intros l H. apply orb_prop in H as [H|H]; [left; by apply N.eqb_eq|]. right.
    unfold ignorecase_fixes in H.
    destruct (N.eqb_spec l 105) as [E1|_].
    - left. simpl in H. rewrite orb_false_r in H. by apply N.eqb_eq in H.
    - destruct (N.eqb_spec l 115) as [E2|_]; [|discriminate].
      right. simpl in H. rewrite orb_false_r in H. by apply N.eqb_eq in H. }
  apply Hcases in H1, H2.
  destruct H1 as [H1 | [[E1 H1] | [E1 H1]]];
    destruct H2 as [H2 | [[E2 H2] | [E2 H2]]];
    try congruence;
    try (rewrite E1 in H2); try (rewrite E2 in H1);
    change (sre_lower 305) with 305 in *; change (sre_lower 383) with 383 in *;
    lia.
Qed.

Lemma prefix_ci_transfer q : forall p p',
  forallb (fun c => c <? 128) q = true ->
  forallb (fun c => c <? 128) p = true ->
  prefix_ci pf p p = true ->
  variant pf p p' = true ->
  prefix_ci pf q p' = true -> prefix_ci pf q p = true.
Proof.
  induction q as [|d q IH]; intros p p' Hq Hp Hself Hv H; [done|].
  destruct p as [|c p]; destruct p' as [|x p']; try done.
  simpl in *.
  apply andb_prop in Hq as [Hd Hq]. apply andb_prop in Hp as [Hc Hp].
  apply andb_prop in Hself as [Hcc Hself]. apply andb_prop in Hv as [Hcx Hv].
  apply andb_prop in H as [Hdx H].
  apply N.ltb_lt in Hd, Hc.
  rewrite <- (lit_match_class c d x c Hc Hd Hcx Hdx), Hcc.
  by rewrite (IH p p').
Qed.

Lemma forallb_drop {X} (P : X -> bool) k (l : list X) :
  forallb P l = true -> forallb P (drop k l) = true.
Proof.
  revert k. induction l as [|x l IH]; intros [|k] H; try done.
  simpl in *. apply andb_prop in H as [_ H]. by apply IH.
Qed.

(** No match of a marker begins inside a spelling of it. *)
Lemma marker_border_variant p p' t k :
  marker pf p = true -> forallb (fun c => c <? 128) p = true ->
  variant pf p p' = true -> (0 < k < length p)%nat ->
  prefix_ci pf (drop k p) (p' ++ t) = false.
Proof.
  intros Hm Ha Hv Hk.
  destruct (prefix_ci pf (drop k p) (p' ++ t)) eqn:E; [|reflexivity].
  rewrite prefix_ci_app_short in E
    by (rewrite length_drop, (variant_length pf p p' Hv); lia).
  apply (prefix_ci_transfer _ p p') in E; [| by apply forallb_drop | done | | done].
  - pose proof (marker_border pf p [] k Hm Hk) as Hb.
    rewrite app_nil_r in Hb. congruence.
  - unfold marker in Hm. apply andb_prop in Hm as [Hm _].
    by apply andb_prop in Hm as [_ Hm].
Qed.

Lemma marker_not_inside_variant p p' x p1 p2 t :
  marker pf p = true -> forallb (fun c => c <? 128) p = true ->
  occurs pf p x = false ->
  x = p1 ++ p2 -> p2 <> [] ->
  t = [] \/ (exists t', variant pf p p' = true /\ t = p' ++ t') ->
  prefix_ci pf p (p2 ++ t) = false.
Proof.
  intros Hm Ha Hx -> Hp2 Ht.
  destruct (prefix_ci pf p (p2 ++ t)) eqn:E; [exfalso | reflexivity].
  destruct (decide (length p <= length p2)%nat) as [Hl|Hl].
  - rewrite prefix_ci_app_short in E by exact Hl.
    assert (occurs pf p p2 = false) as Ho
      by (apply (occurs_suffix pf p (p1 ++ p2)); [by apply suffix_app_r | exact Hx]).
    apply occurs_prefix_ci in Ho. congruence.
  - apply prefix_ci_app_long in E; [|lia].
    assert (0 < length p2 < length p)%nat as Hk
      by (destruct p2; [done | simpl in *; lia]).
    destruct Ht as [-> | (t' & Hv & ->)].
    + destruct (drop (length p2) p) eqn:Ed; [|discriminate].
      apply (f_equal length) in Ed. rewrite length_drop in Ed. simpl in Ed. lia.
    + rewrite marker_border_variant in E by assumption. discriminate.
Qed.

Section Conts.
Context {A : Type}.

Lemma rmatch_field_lits_variant n p p' rs ws x t g (k : str -> caps -> option A) r :
  marker pf p = true -> forallb (fun c => c <? 128) p = true ->
  variant pf p p' = true ->
  blank ws = true -> blank x = false -> occurs pf p x = false ->
  rmatch pf (cat rs) t ((n, lstrip x) :: g) k = Some r ->
  rmatch pf (cat (StarG CSpace :: Group n (StarL CAny) :: lits p :: rs))
    (ws ++ x ++ p' ++ t) g k
  = Some r.
Proof.
  intros Hm Ha Hv Hws Hx Ho Hok.
  apply (rmatch_field pf pf_dotall); try assumption.
  - intros p1 p2 g' E Hp2. rewrite rmatch_cat_cons.
    apply rmatch_lits_fail.
    destruct (lstrip_suffix x) as [pre Hpre].
    apply (marker_not_inside_variant p p' x (pre ++ p1) p2); try assumption.
    + rewrite <- app_assoc, <- E. exact Hpre.
    + right. by exists t.
  - rewrite rmatch_cat_cons, rmatch_lits_ok by (by apply variant_prefix).
    rewrite <- (variant_length pf p p' Hv), drop_app_length. exact Hok.
Qed.

Lemma rmatch_field_look_variant n p p' ws x t g (k : str -> caps -> option A) r :
  marker pf p = true -> forallb (fun c => c <? 128) p = true ->
  blank ws = true -> blank x = false -> occurs pf p x = false ->
  t = [] \/ (exists t', variant pf p p' = true /\ t = p' ++ t') ->
  k t ((n, lstrip x) :: g) = Some r ->
  rmatch pf (cat [StarG CSpace; Group n (StarL CAny); Look (Alt (lits p) EndZ)])
    (ws ++ x ++ t) g k
  = Some r.
Proof.
  intros Hm Ha Hws Hx Ho Ht Hok.
  apply (rmatch_field pf pf_dotall); try assumption.
  - intros p1 p2 g' E Hp2. rewrite rmatch_cat_cons. cbn [rmatch].
    rewrite rmatch_lits_fail.
    + destruct (p2 ++ t) eqn:E2; [|reflexivity].
      apply app_eq_nil in E2 as [? _]. contradiction.
    + destruct (lstrip_suffix x) as [pre Hpre].
      apply (marker_not_inside_variant p p' x (pre ++ p1) p2); try assumption.
      rewrite <- app_assoc, <- E. exact Hpre.
  - rewrite rmatch_cat_cons. cbn [rmatch].
    destruct Ht as [-> | (t' & Hv & ->)].
    + rewrite rmatch_lits_fail.
      * exact Hok.
      * pose proof (marker_nonempty pf p Hm). by destruct p.
    + rewrite rmatch_lits_ok by (by apply variant_prefix). exact Hok.
Qed.

End Conts.

Lemma well_spelled_spec sb :
  well_spelled sb = true ->
  variant pf mk_question (sp_question_marker sb) = true
  /\ variant pf mk_answer (sp_answer_marker sb) = true
  /\ well_formed_flashcard_block (sp_block sb) = true.
Proof.
  unfold well_spelled. intros H.
  apply andb_prop in H as [H H3]. by apply andb_prop in H as [H1 H2].
Qed.

(** The pattern matches a well-formed block in any spelling of its
    markers as it matches the block in theirs. *)
Lemma flashcard_match_spelled sb t :
  well_spelled sb = true ->
  t = [] \/ (exists p' t', variant pf mk_next p' = true /\ t = p' ++ t') ->
  match_here pf flashcard_pattern (render_spelled_block sb ++ t)
  = Some (t, flashcard_groups (sp_block sb)).
Proof.
  intros Hsb Ht. apply well_spelled_spec in Hsb as (Hvq & Hva & Hwf).
  apply well_formed_flashcard_block_spec in Hwf as (Hq & Ha & Hoq & Hoa).
  unfold match_here, flashcard_pattern, render_spelled_block,
    render_flashcard_block_as.
  rewrite <- !app_assoc, rmatch_cat_cons.
  rewrite (rmatch_lits_ok pf mk_question) by (by apply variant_prefix).
  rewrite <- (variant_length pf _ _ Hvq), drop_app_length.
  apply (rmatch_field_lits_variant 1 mk_answer (sp_answer_marker sb) _ []
           (fb_question (sp_block sb)));
    [apply marker_answer | by vm_compute | done | done | done | done |].
  destruct Ht as [-> | (p' & t' & Hv & ->)].
  - apply (rmatch_field_look_variant 2 mk_next [] [] (fb_answer (sp_block sb)));
      [apply marker_next | by vm_compute | done | done | done | by left | done].
  - apply (rmatch_field_look_variant 2 mk_next p' [] (fb_answer (sp_block sb)));
      [apply marker_next | by vm_compute | done | done | done | | done].
    right. by exists t'.
Qed.

Lemma render_spelled_blocks_cons sb l :
  render_spelled_blocks (sb :: l)
  = render_spelled_block sb
    ++ match l with [] => [] | _ :: _ => [NL; NL] ++ render_spelled_blocks l end.
Proof.
  unfold render_spelled_blocks. destruct l; simpl; [by rewrite app_nil_r | done].
Qed.

Lemma flashcard_matches_spelled l :
  forallb well_spelled l = true ->
  flashcard_matches (render_spelled_blocks l)
  = map (fun sb => flashcard_groups (sp_block sb)) l.
Proof.
  induction l as [|sb l IH]; intros H; [reflexivity|].
  simpl in H. apply andb_prop in H as [Hsb Hl].
  rewrite render_spelled_blocks_cons. unfold flashcard_matches.
  assert (render_spelled_block sb <> []) as Hne.
  { apply well_spelled_spec in Hsb as (Hvq & _ & _).
    unfold render_spelled_block, render_flashcard_block_as.
    by destruct (sp_question_marker sb). }
  destruct l as [|sb' l].
  - rewrite (findall_match pf flashcard_pattern _ [] (flashcard_groups (sp_block sb)));
      [reflexivity | exact Hne |].
    apply flashcard_match_spelled; auto.
  - rewrite (findall_match pf flashcard_pattern _ _ (flashcard_groups (sp_block sb)));
      [|exact Hne|].
    + cbn [map]. f_equal.
      change ([NL; NL] ++ render_spelled_blocks (sb' :: l))
        with (NL :: NL :: render_spelled_blocks (sb' :: l)).
      rewrite !findall_nomatch by apply flashcard_no_match_at_newline.
      apply (IH Hl).
    + apply flashcard_match_spelled; [exact Hsb|].
      right. simpl in Hl. apply andb_prop in Hl as [Hsb' _].
      apply well_spelled_spec in Hsb' as (Hvq & _ & _).
      rewrite render_spelled_blocks_cons.
      unfold render_spelled_block at 1, render_flashcard_block_as.
      exists ([NL; NL] ++ sp_question_marker sb'). eexists.
      split; [|by rewrite <- !app_assoc].
      change (variant pf mk_next ([NL; NL] ++ sp_question_marker sb'))
        with (lit_match pf NL NL
              && (lit_match pf NL NL
                  && variant pf mk_question (sp_question_marker sb'))).
      by rewrite Hvq.
Qed.

End VariantFacts.

(** X13.  The markers are recognised in any letter case: a text of
    well-formed flashcard blocks whose [Question:] and [Answer:] are
    written in any mix of upper and lower case, each block in its own,
    yields the same flashcards as with the markers as the prompt writes
    them. *)
Theorem X13_markers_in_any_case (l : list SpelledFlashcardBlock) :
  l <> [] ->
  forallb well_spelled l = true ->
  extractFlashcards (render_spelled_blocks l)
  = Items (map (fun sb => flashcard_of_block (sp_block sb)) l)
  /\ extractFlashcards (render_spelled_blocks l)
     = extractFlashcards (render_flashcard_blocks (map sp_block l)).
Proof.
  intros Hne Hl.
  assert (extractFlashcards (render_spelled_blocks l)
          = Items (map (fun sb => flashcard_of_block (sp_block sb)) l)) as E.
  { unfold extractFlashcards. rewrite (flashcard_matches_spelled l Hl), map_map.
    rewrite (map_ext _ (fun sb => flashcard_of_block (sp_block sb)))
      by (intros sb; apply flashcard_of_groups).
    destruct l; [done | reflexivity]. }
  split; [exact E|]. rewrite E, extractFlashcards_blocks.
  - by rewrite map_map.
  - by destruct l.
  - rewrite forallb_forall in *. intros b Hb.
    apply in_map_iff in Hb as (sb & <- & Hsb).
    by apply well_spelled_spec, Hl.
Qed.

Lemma X13_witness :
  extractFlashcards (render_spelled_blocks sample_spelled_blocks)
  = Items (map (fun sb => flashcard_of_block (sp_block sb)) sample_spelled_blocks)
  /\ extractFlashcards (render_spelled_blocks sample_spelled_blocks)
     = extractFlashcards
         (render_flashcard_blocks (map sp_block sample_spelled_blocks)).
Proof.
  apply (X13_markers_in_any_case sample_spelled_blocks);
    [discriminate | vm_compute; reflexivity].
Defined.
